(** * kinopoisk-export: a shallow embedding of [main.go]

    The program scrapes the paginated list of watched movies of a
    kinopoisk.ru profile into a semicolon-separated file ([export]) and
    replays such a file against the site's GraphQL endpoint
    ([importMovies]).

    Go strings are byte sequences: they are modelled by [string], one
    [ascii] per byte, so that the Cyrillic separator of the paging header
    is the six bytes the compiler puts in the binary.  Go's [int] is the
    64-bit two's-complement integer of the usual targets, modelled by [Z]
    with the wrap-around written out.  A run-time panic (index out of
    range, nil dereference, division by zero) is an explicit result. *)

From Stdlib Require Import ZArith String Ascii List Lia.
From stdpp Require Import gmap strings list pretty.

Open Scope string_scope.
Open Scope list_scope.
Open Scope Z_scope.

(** ** Results of Go code that may panic *)

Inductive RuntimeError : Type :=
| IndexOutOfRange
| NilDereference
| DivideByZero.

Inductive Result (A : Type) : Type :=
| Ok (a : A)
| Panic (e : RuntimeError).

Arguments Ok {A} a.
Arguments Panic {A} e.

Definition bindR {A B} (r : Result A) (k : A -> Result B) : Result B :=
  match r with
  | Ok a => k a
  | Panic e => Panic e
  end.

Notation "'let!' x ':=' r 'in' k" := (bindR r (fun x => k))
  (at level 10, x pattern, r at level 100, k at level 200).

(** [xs[i]] on a slice: a panic when [i] is out of range. *)
Definition at_ {A} (xs : list A) (i : nat) : Result A :=
  match xs !! i with
  | Some x => Ok x
  | None => Panic IndexOutOfRange
  end.

(** ** Package [strings] *)

Module GoStrings.

(** [s[:n]] and [s[n:]] for [n <= len(s)]. *)
Fixpoint sliceTo (n : nat) (s : string) : string :=
  match n, s with
  | S n', String c s' => String c (sliceTo n' s')
  | _, _ => ""
  end.

Fixpoint sliceFrom (n : nat) (s : string) : string :=
  match n, s with
  | S n', String _ s' => sliceFrom n' s'
  | _, _ => s
  end.

Fixpoint HasPrefix (s prefix : string) {struct prefix} : bool :=
  match prefix, s with
  | "", _ => true
  | String p prefix', String c s' =>
      if decide (c = p) then HasPrefix s' prefix' else false
  | String _ _, "" => false
  end.

(** [strings.Index]: the byte offset of the first occurrence of [substr]
    in [s]; Go's [-1] is [None]. *)
Fixpoint Index (s substr : string) : option nat :=
  if HasPrefix s substr then Some 0%nat
  else match s with
       | "" => None
       | String _ s' => S <$> Index s' substr
       end.

Definition Contains (s substr : string) : bool :=
  match Index s substr with
  | Some _ => true
  | None => false
  end.

(** The loop of [genSplit]: cut at the first occurrence of [sep], go on
    with what follows it.  Go bounds the loop by [Count(s, sep)]; every
    round consumes at least one byte of [s] when [sep] is not empty, so
    [len(s)] rounds are as many as the loop can make. *)
Fixpoint genSplit (rounds : nat) (s sep : string) : list string :=
  match rounds with
  | O => [s]
  | S rounds' =>
      match Index s sep with
      | None => [s]
      | Some m =>
          sliceTo m s :: genSplit rounds' (sliceFrom (m + String.length sep) s) sep
      end
  end.

(** [strings.Split(s, sep)] for a non-empty [sep] (the program only
    splits on the literals ["/"], [" из "] and ["—"]). *)
Definition Split (s sep : string) : list string :=
  genSplit (String.length s) s sep.

(** Number of bytes of [s] equal to [c]: [strings.Count] for a one-byte
    separator. *)
Fixpoint CountByte (c : ascii) (s : string) : nat :=
  match s with
  | "" => 0%nat
  | String c' s' => if decide (c' = c) then S (CountByte c s') else CountByte c s'
  end.

End GoStrings.

(** ** [extractId] (main.go, lines 345-348) *)

Definition extractId (href : string) : Result string :=
  let parts := GoStrings.Split href "/" in
  at_ parts 2.

(** ** Package [strconv] *)

Module GoStrconv.

Definition maxInt : Z := 2 ^ 63 - 1.
Definition minInt : Z := - 2 ^ 63.

Inductive Parsed : Type :=
| Num (n : Z)
| ErrSyntax
| ErrRange.

Definition isDigit (c : ascii) : bool :=
  let b := Z.of_nat (nat_of_ascii c) in (48 <=? b) && (b <=? 57).

Definition digit (c : ascii) : Z := Z.of_nat (nat_of_ascii c) - 48.

(** The digit loop: [n = n*10 + d] for every byte, a syntax error at the
    first byte that is not a decimal digit. *)
Fixpoint digits (n : Z) (s : string) : option Z :=
  match s with
  | "" => Some n
  | String c s' => if isDigit c then digits (n * 10 + digit c) s' else None
  end.

(** [strconv.Atoi]: an optional sign, then one or more decimal digits;
    [ErrRange] when the value does not fit an [int]. *)
Definition Atoi (s : string) : Parsed :=
  match s with
  | "" => ErrSyntax
  | String c s' =>
      let neg := bool_decide (c = "-"%char) in
      let body := if bool_decide (c = "-"%char) || bool_decide (c = "+"%char)
                  then s' else s in
      match body with
      | "" => ErrSyntax
      | String _ _ =>
          match digits 0 body with
          | None => ErrSyntax
          | Some n =>
              let v := if neg then - n else n in
              if (minInt <=? v) && (v <=? maxInt) then Num v else ErrRange
          end
      end
  end.

End GoStrconv.

(** ** Package [encoding/csv], with [Comma = ';'] and the other settings
    left at their defaults, as [createCSVWriter] and [readMoviesCsv] set
    them up *)

Module GoCsv.

Definition LF : ascii := "010".
Definition CR : ascii := "013".
Definition QUOTE : ascii := "034".
Definition Comma : ascii := ";".

Definition startsWith (c : ascii) (s : string) : bool :=
  match s with
  | String c' _ => bool_decide (c' = c)
  | "" => false
  end.

Fixpoint lastByte (s : string) : option ascii :=
  match s with
  | "" => None
  | String c "" => Some c
  | String _ s' => lastByte s'
  end.

Fixpoint anyByte (p : ascii -> bool) (s : string) : bool :=
  match s with
  | "" => false
  | String c s' => p c || anyByte p s'
  end.

Definition IndexByte (s : string) (c : ascii) : option nat :=
  GoStrings.Index s (String c "").

(** *** Writer *)

Definition isSpecial (c : ascii) : bool :=
  bool_decide (c = LF) || bool_decide (c = CR) ||
  bool_decide (c = QUOTE) || bool_decide (c = Comma).

(** The UTF-8 encodings of the runes for which [unicode.IsSpace] holds:
    the six ASCII ones, U+0085, U+00A0, U+1680, U+2000 to U+200A, U+2028,
    U+2029, U+202F, U+205F and U+3000.  A string starts with one of them
    exactly when its first rune decodes to a space. *)
Definition spaceRunes : list string :=
  [ String "009" ""; String "010" ""; String "011" ""; String "012" "";
    String "013" ""; String "032" "";
    String "194" (String "133" ""); String "194" (String "160" "");
    String "225" (String "154" (String "128" "")) ] ++
  map (fun b => String "226" (String "128" (String (ascii_of_nat b) "")))
      [128; 129; 130; 131; 132; 133; 134; 135; 136; 137; 138; 168; 169; 175]%nat ++
  [ String "226" (String "129" (String "159" ""));
    String "227" (String "128" (String "128" "")) ].

Definition firstRuneIsSpace (field : string) : bool :=
  existsb (GoStrings.HasPrefix field) spaceRunes.

Definition fieldNeedsQuotes (field : string) : bool :=
  if decide (field = "") then false
  else if decide (field = "\.") then true
  else if anyByte isSpecial field then true
  else firstRuneIsSpace field.

(** The body of a quoted field: every quote doubled, every other byte as
    it is (with [UseCRLF] off, [\r] and [\n] are written as they are). *)
Fixpoint escape (field : string) : string :=
  match field with
  | "" => ""
  | String c field' =>
      if decide (c = QUOTE) then String QUOTE (String QUOTE (escape field'))
      else String c (escape field')
  end.

Definition writeField (field : string) : string :=
  if fieldNeedsQuotes field
  then String QUOTE (escape field +:+ String QUOTE "")
  else field.

(** The loop of [Writer.Write] from field number [n] on. *)
Fixpoint writeFields (n : nat) (record : list string) : string :=
  match record with
  | [] => ""
  | field :: record' =>
      (if (0 <? n)%nat then String Comma "" else "") +:+
      writeField field +:+ writeFields (S n) record'
  end.

(** What one call of [Writer.Write] appends to the file. *)
Definition Write (record : list string) : string :=
  writeFields 0 record +:+ String LF "".

(** *** Reader *)

Inductive ParseError : Type :=
| ErrBareQuote
| ErrQuote
| ErrFieldCount.

(** [bufio.Reader.ReadSlice('\n')]: the bytes up to and including the
    first line feed, what is left of the input, and whether the line feed
    was found (when it was not, the error is [io.EOF]). *)
Fixpoint ReadSlice (input : string) : string * string * bool :=
  match input with
  | "" => ("", "", false)
  | String c input' =>
      if decide (c = LF) then (String LF "", input', true)
      else let '(line, rest, found) := ReadSlice input' in
           (String c line, rest, found)
  end.

Definition lengthNL (b : string) : nat :=
  match lastByte b with
  | Some c => if decide (c = LF) then 1%nat else 0%nat
  | None => 0%nat
  end.

Definition dropTrailingCR (line : string) : string :=
  match lastByte line with
  | Some c => if decide (c = CR) then GoStrings.sliceTo (String.length line - 1) line
              else line
  | None => line
  end.

(** "Normalize \r\n to \n on all input lines": a line that ends in
    [\r\n] loses the [\r]. *)
Fixpoint normalizeCRLF (line : string) : string :=
  match line with
  | "" => ""
  | String c line' =>
      if bool_decide (c = CR) && bool_decide (line' = String LF "") then String LF ""
      else String c (normalizeCRLF line')
  end.

(** [Reader.readLine]: the line, whether the error is [io.EOF], and the
    rest of the input. *)
Definition readLine (input : string) : string * bool * string :=
  let '(line, rest, found) := ReadSlice input in
  let '(line, eof) :=
    if (0 <? String.length line)%nat && negb found
    then (dropTrailingCR line, false)
    else (line, negb found) in
  (normalizeCRLF line, eof, rest).

Inductive Quoted : Type :=
| QuotedComma (field line rest : string)
| QuotedEnd (field rest : string)
| QuotedError (e : ParseError)
| QuotedFuel.

(** The inner loop of [readRecord] for a quoted field, entered after the
    opening quote: [field] is what the record buffer holds of the field,
    [line] what is left of the current line, [rest] the unread input. *)
Fixpoint quotedField (fuel : nat) (field line rest : string) : Quoted :=
  match fuel with
  | O => QuotedFuel
  | S fuel' =>
      match IndexByte line QUOTE with
      | Some i =>
          let field := field +:+ GoStrings.sliceTo i line in
          let line := GoStrings.sliceFrom (i + 1) line in
          if startsWith QUOTE line then
            quotedField fuel' (field +:+ String QUOTE "") (GoStrings.sliceFrom 1 line) rest
          else if startsWith Comma line then
            QuotedComma field (GoStrings.sliceFrom 1 line) rest
          else if (lengthNL line =? String.length line)%nat then
            QuotedEnd field rest
          else QuotedError ErrQuote
      | None =>
          if (0 <? String.length line)%nat then
            let '(line', _, rest') := readLine rest in
            quotedField fuel' (field +:+ line) line' rest'
          else QuotedError ErrQuote
      end
  end.

Inductive Fields : Type :=
| FieldsDone (record : list string) (rest : string)
| FieldsError (e : ParseError)
| FieldsFuel.

(** The [parseField] loop of [readRecord]. *)
Fixpoint parseFields (fuel : nat) (record : list string) (line rest : string) : Fields :=
  match fuel with
  | O => FieldsFuel
  | S fuel' =>
      if negb (startsWith QUOTE line) then
        match IndexByte line Comma with
        | Some i =>
            let field := GoStrings.sliceTo i line in
            if anyByte (fun c => bool_decide (c = QUOTE)) field
            then FieldsError ErrBareQuote
            else parseFields fuel' (record ++ [field])
                             (GoStrings.sliceFrom (i + 1) line) rest
        | None =>
            let field := GoStrings.sliceTo (String.length line - lengthNL line) line in
            if anyByte (fun c => bool_decide (c = QUOTE)) field
            then FieldsError ErrBareQuote
            else FieldsDone (record ++ [field]) rest
        end
      else
        match quotedField fuel' "" (GoStrings.sliceFrom 1 line) rest with
        | QuotedComma field line' rest' =>
            parseFields fuel' (record ++ [field]) line' rest'
        | QuotedEnd field rest' => FieldsDone (record ++ [field]) rest'
        | QuotedError e => FieldsError e
        | QuotedFuel => FieldsFuel
        end
  end.

Inductive Record_ : Type :=
| RecordRead (record : list string) (rest : string)
| RecordEOF
| RecordError (e : ParseError)
| RecordFuel.

(** [Reader.readRecord]: skip the empty lines, then parse the fields of
    the first line that is not empty.  Every round of either loop takes at
    least one byte from the input, so its length bounds the rounds. *)
Fixpoint readRecord (fuel : nat) (input : string) : Record_ :=
  match fuel with
  | O => RecordFuel
  | S fuel' =>
      let '(line, eof, rest) := readLine input in
      if negb eof && (String.length line =? lengthNL line)%nat then
        readRecord fuel' rest
      else if eof then RecordEOF
      else
        match parseFields (String.length line + String.length rest + 2) [] line rest with
        | FieldsDone record rest' => RecordRead record rest'
        | FieldsError e => RecordError e
        | FieldsFuel => RecordFuel
        end
  end.

Inductive Records : Type :=
| RecordsRead (records : list (list string))
| RecordsError (e : ParseError)
| RecordsFuel.

(** The loop of [Reader.ReadAll]; [fieldsPerRecord] is zero until the
    first record has set it. *)
Fixpoint readAll (fuel : nat) (fieldsPerRecord : nat) (records : list (list string))
    (input : string) : Records :=
  match fuel with
  | O => RecordsFuel
  | S fuel' =>
      match readRecord (String.length input + 1) input with
      | RecordEOF => RecordsRead records
      | RecordError e => RecordsError e
      | RecordFuel => RecordsFuel
      | RecordRead record rest =>
          if (0 <? fieldsPerRecord)%nat && negb (length record =? fieldsPerRecord)%nat
          then RecordsError ErrFieldCount
          else readAll fuel'
                 (if (0 <? fieldsPerRecord)%nat then fieldsPerRecord else length record)
                 (records ++ [record]) rest
      end
  end.

Definition ReadAll (input : string) : Records :=
  readAll (String.length input + 1) 0 [] input.

End GoCsv.

(** Arithmetic on [int]: the result modulo [2^64], read as signed. *)
Definition wrap (z : Z) : Z := (z + 2 ^ 63) mod 2 ^ 64 - 2 ^ 63.

(** ** Package [html]: the parsed document *)

Inductive NodeType : Type :=
| ErrorNode
| TextNode
| DocumentNode
| ElementNode
| CommentNode
| DoctypeNode.

#[global] Instance NodeType_eq_dec : EqDecision NodeType.
Proof. solve_decision. Defined.

Record Attribute : Type := mkAttribute {
  Namespace : string;
  Key : string;
  Val : string;
}.

(** A node with its children in document order: [FirstChild] is the head
    of [Children] ([nil] when there is none) and a walk along
    [NextSibling] visits the list from left to right. *)
#[warnings="-register-all"]
Inductive Node : Type :=
  mkNode {
    NType : NodeType;
    Data : string;
    Attr : list Attribute;
    Children : list Node;
  }.

(** ** The process: global variables, output, clock and network *)

Inductive Message : Type :=
| MsgFetchFirstPage (url : string)
| MsgTryFetchFirstPage (try : Z) (url : string)
| MsgFetchPage (url : string)
| MsgTryFetchPage (try : Z) (url : string)
| MsgErrorFetchingURL
| MsgErrorParsingHTML
| MsgErrorParsingJson
| MsgNewline
| MsgParsedSleep (found : Z)
| MsgParsedRetry (found : Z)
| MsgConvertMovieId
| MsgNotSetWatched (name : string)
| MsgSetWatched (name : string)
| MsgWatchedCount (n : Z)
| MsgPageSize (n : Z)
| MsgPagesCount (n : Z)
| MsgEmptyLine
| MsgParsedTotal (n : Z)
| MsgDumpedCount (n : Z).

Inductive Event : Type :=
| EvPrint (m : Message)
| EvSleep (seconds : Z)
| EvGet (url : string)
| EvPost (movieId : Z).

(** [movies] is the package-level map; [trace] is what the process has
    printed, slept and requested so far, oldest first; [requests] counts
    the HTTP requests already sent. *)
Record State : Type := mkState {
  movies : gmap string string;
  trace : list Event;
  requests : nat;
}.

Inductive Outcome (A : Type) : Type :=
| Returned (a : A) (st : State)
| Panicked (e : RuntimeError) (st : State).

Arguments Returned {A} a st.
Arguments Panicked {A} e st.

Definition M (A : Type) : Type := State -> Outcome A.

Definition ret {A} (a : A) : M A := fun st => Returned a st.

Definition bind {A B} (m : M A) (k : A -> M B) : M B :=
  fun st =>
    match m st with
    | Returned a st' => k a st'
    | Panicked e st' => Panicked e st'
    end.

Notation "'do' x <- m ; k" := (bind m (fun x => k))
  (at level 10, x pattern, m at level 100, k at level 200).
Notation "m ;; k" := (bind m (fun _ => k))
  (at level 100, k at level 200, right associativity).

Definition record (e : Event) (st : State) : State :=
  {| movies := movies st; trace := trace st ++ [e]; requests := requests st |}.

Definition emit (e : Event) : M unit := fun st => Returned tt (record e st).

Definition say (m : Message) : M unit := emit (EvPrint m).

Definition sleep (seconds : Z) : M unit := emit (EvSleep seconds).

Definition panic {A} (e : RuntimeError) : M A := fun st => Panicked e st.

Definition liftR {A} (r : Result A) : M A :=
  fun st =>
    match r with
    | Ok a => Returned a st
    | Panic e => Panicked e st
    end.

(** [movies[id] = name] *)
Definition setMovie (id name : string) : M unit :=
  fun st =>
    Returned tt {| movies := <[id := name]> (movies st);
                   trace := trace st;
                   requests := requests st |}.

(** What the site answers to the [k]-th request of the run: the three
    ways [makeReq] followed by [html.Parse] can end. *)
Inductive Fetched : Type :=
| FetchError
| ParseError
| Document (doc : Node).

(** What [setMovieWatched] gets back: no response, a body that is not the
    expected JSON, or a decoded [data.movie.watched.set.status]. *)
Inductive WatchReply : Type :=
| PostError
| BadJson
| Status (status : string).

Record World : Type := mkWorld {
  site : nat -> string -> Fetched;
  graphql : nat -> Z -> WatchReply;
}.

Definition get (w : World) (url : string) : M Fetched :=
  fun st =>
    Returned (site w (requests st) url)
             {| movies := movies st;
                trace := trace st ++ [EvGet url];
                requests := S (requests st) |}.

Definition post (w : World) (movieId : Z) : M WatchReply :=
  fun st =>
    Returned (graphql w (requests st) movieId)
             {| movies := movies st;
                trace := trace st ++ [EvPost movieId];
                requests := S (requests st) |}.

(** The durations of the sleeps of a trace, in order. *)
Definition sleeps (tr : list Event) : list Z :=
  omap (fun e => match e with EvSleep s => Some s | _ => None end) tr.

(** The URLs fetched by a trace, in order. *)
Definition fetches (tr : list Event) : list string :=
  omap (fun e => match e with EvGet u => Some u | _ => None end) tr.

(** A [for] loop over a slice or a sibling chain whose body may return
    from the enclosing function: [Some r] when it did, [None] when the
    loop ran to its end. *)
Fixpoint forRange {A R} (xs : list A) (body : A -> option R) : option R :=
  match xs with
  | [] => None
  | x :: xs' =>
      match body x with
      | Some r => Some r
      | None => forRange xs' body
      end
  end.

(** ** Harvest: the paging header (main.go, lines 189-250) *)

Definition isClassName (n : Node) (className : string) : bool :=
  existsb (fun a => bool_decide (Key a = "class") && GoStrings.Contains (Val a) className)
          (Attr n).

Definition isElement (n : Node) (tag : string) : bool :=
  bool_decide (NType n = ElementNode) && bool_decide (Data n = tag).

(** Lines 218-240: what [findPagingHeader] does with the text [pages] of
    the first child of the [pagesFromTo] block. *)
Definition inspectPaging (pages : string) : M (Z * Z) :=
  let pagesParts := GoStrings.Split pages " из " in
  do pagesParts0 <- liftR (at_ pagesParts 0);
  let pageRangeParts := GoStrings.Split pagesParts0 "—" in
  do pageRangeParts0 <- liftR (at_ pageRangeParts 0);
  match GoStrconv.Atoi pageRangeParts0 with
  | GoStrconv.Num firstItemNumber =>
      do pageRangeParts1 <- liftR (at_ pageRangeParts 1);
      match GoStrconv.Atoi pageRangeParts1 with
      | GoStrconv.Num lastItemNumber =>
          let pageSize := wrap (wrap (lastItemNumber - firstItemNumber) + 1) in
          do totalMoviesStr <- liftR (at_ pagesParts 1);
          match GoStrconv.Atoi totalMoviesStr with
          | GoStrconv.Num totalMovies => ret (totalMovies, pageSize)
          | _ => say MsgErrorParsingHTML ;; ret (0, 0)
          end
      | _ => say MsgErrorParsingHTML ;; ret (0, 0)
      end
  | _ => say MsgErrorParsingHTML ;; ret (0, 0)
  end.

Fixpoint findPagingHeader (n : Node) : M (Z * Z) :=
  match n with
  | mkNode _ _ _ children =>
      if isElement n "div" && isClassName n "pagesFromTo" then
        match children with
        | [] => panic NilDereference
        | firstChild :: _ => inspectPaging (Data firstChild)
        end
      else
        (fix siblings (cs : list Node) : M (Z * Z) :=
           match cs with
           | [] => ret (0, 0)
           | c :: cs' =>
               do r <- findPagingHeader c;
               if fst r =? 0 then siblings cs' else ret r
           end) children
  end.

(** The loop of [parseFirstPage], entered with counter [i].  [None]: the
    loop is still running after [fuel] rounds. *)
Fixpoint parseFirstPage_loop (w : World) (fuel : nat) (url : string) (i : Z)
    (st : State) : option (Outcome (Z * Z)) :=
  match fuel with
  | O => None
  | S fuel' =>
      match (say (if i =? 0 then MsgFetchFirstPage url
                  else MsgTryFetchFirstPage (wrap (i + 1)) url) ;;
             get w url) st with
      | Panicked e st1 => Some (Panicked e st1)
      | Returned FetchError st1 =>
          Some ((say MsgErrorFetchingURL ;; ret (0, 0)) st1)
      | Returned ParseError st1 =>
          Some ((say MsgErrorParsingHTML ;; ret (0, 0)) st1)
      | Returned (Document doc) st1 =>
          match findPagingHeader doc st1 with
          | Panicked e st2 => Some (Panicked e st2)
          | Returned (totalMovies, pageSize) st2 =>
              if totalMovies =? 0
              then parseFirstPage_loop w fuel' url (wrap (i + 1)) st2
              else Some (Returned (totalMovies, pageSize) st2)
          end
      end
  end.

Definition parseFirstPage (w : World) (fuel : nat) (url : string)
    (st : State) : option (Outcome (Z * Z)) :=
  parseFirstPage_loop w fuel url 0 st.

(** ** Harvest: the listing (main.go, lines 252-343) *)

(** Line 332, reached for the anchor [e] and its [href] value:
    [movies[extractId(a.Val)] = e.FirstChild.Data], then [return true]. *)
Definition storeMovie (e : Node) (href : string) : M bool :=
  do id <- liftR (extractId href);
  match Children e with
  | [] => panic NilDereference
  | firstChild :: _ => setMovie id (Data firstChild) ;; ret true
  end.

Definition processMovie (n : Node) : M bool :=
  fun st =>
    match
      forRange (Children n) (fun c =>
        if isClassName c "info" then
          forRange (Children c) (fun d =>
            if isClassName d "nameRus" then
              forRange (Children d) (fun e =>
                if isElement e "a" then
                  forRange (Attr e) (fun a =>
                    if bool_decide (Key a = "href")
                    then Some (storeMovie e (Val a) st)
                    else None)
                else None)
            else None)
        else None)
    with
    | Some r => r
    | None => Returned false st
    end.

(** The loop of [processMovies] over the children [cs] that are left,
    with the count so far. *)
Fixpoint processMovies_loop (cs : list Node) (parsedMovies : Z) : M Z :=
  match cs with
  | [] => ret parsedMovies
  | c :: cs' =>
      if isClassName c "item" || isClassName c "item even" then
        do ok <- processMovie c;
        processMovies_loop cs' (if ok : bool then wrap (parsedMovies + 1) else parsedMovies)
      else processMovies_loop cs' parsedMovies
  end.

Definition processMovies (n : Node) : M Z := processMovies_loop (Children n) 0.

Fixpoint findMovies (n : Node) : M Z :=
  match n with
  | mkNode _ _ _ children =>
      if isElement n "div" && isClassName n "profileFilmsList" then
        processMovies n
      else
        (fix siblings (cs : list Node) : M Z :=
           match cs with
           | [] => ret 0
           | c :: cs' =>
               do parsedMovies <- findMovies c;
               if parsedMovies =? 0 then siblings cs' else ret parsedMovies
           end) children
  end.

(** The loop of [parsePage], entered with counter [i]. *)
Fixpoint parsePage_loop (w : World) (fuel : nat) (url : string) (i : Z)
    (st : State) : option (Outcome Z) :=
  match fuel with
  | O => None
  | S fuel' =>
      match (say MsgNewline ;;
             say (if i =? 0 then MsgFetchPage url
                  else MsgTryFetchPage (wrap (i + 1)) url) ;;
             get w url) st with
      | Panicked e st1 => Some (Panicked e st1)
      | Returned FetchError st1 =>
          Some ((say MsgErrorFetchingURL ;; ret 0) st1)
      | Returned ParseError st1 =>
          Some ((say MsgErrorParsingHTML ;; ret 0) st1)
      | Returned (Document doc) st1 =>
          match (do foundMovies <- findMovies doc;
                 say (if foundMovies =? 0 then MsgParsedRetry foundMovies
                      else MsgParsedSleep foundMovies) ;;
                 sleep 5 ;;
                 ret foundMovies) st1 with
          | Panicked e st2 => Some (Panicked e st2)
          | Returned foundMovies st2 =>
              if foundMovies =? 0
              then parsePage_loop w fuel' url (wrap (i + 1)) st2
              else Some (Returned foundMovies st2)
          end
      end
  end.

Definition parsePage (w : World) (fuel : nat) (url : string)
    (st : State) : option (Outcome Z) :=
  parsePage_loop w fuel url 0 st.

(** ** Harvest: the number of pages (main.go, lines 163-166) *)

(** [a / b] and [a % b] on [int]: truncated towards zero, a panic when
    [b] is zero. *)
Definition quo (a b : Z) : Result Z :=
  if b =? 0 then Panic DivideByZero else Ok (wrap (Z.quot a b)).

Definition rem (a b : Z) : Result Z :=
  if b =? 0 then Panic DivideByZero else Ok (Z.rem a b).

Definition pageCountOf (totalMovies pageSize : Z) : Result Z :=
  let! pageCount := quo totalMovies pageSize in
  let! r := rem totalMovies pageSize in
  Ok (if r =? 0 then pageCount else wrap (pageCount + 1)).

(** ** Replay (main.go, lines 82-140) *)

Definition setMovieWatched (w : World) (movieId : Z) : M bool :=
  do reply <- post w movieId;
  match reply with
  | PostError => say MsgErrorFetchingURL ;; ret false
  | BadJson => say MsgErrorParsingJson ;; ret false
  | Status status => ret (bool_decide (status = "SUCCESS"))
  end.

(** The [for] loop of [importMovies] over the rows read from the file. *)
Fixpoint importMovies_loop (w : World) (data : list (list string)) : M unit :=
  match data with
  | [] => ret tt
  | line :: data' =>
      do movieId <- liftR (at_ line 0);
      do movieName <- liftR (at_ line 1);
      match GoStrconv.Atoi movieId with
      | GoStrconv.Num movieIdInt =>
          do ok <- setMovieWatched w movieIdInt;
          say (if ok : bool then MsgSetWatched movieName
               else MsgNotSetWatched movieName) ;;
          sleep 1 ;;
          importMovies_loop w data'
      | _ => say MsgConvertMovieId ;; ret tt
      end
  end.

(** ** The record file (main.go, lines 142-158 and 371-404) *)

(** [dumpFile], once the file is created: one [Write] per entry of the
    map, in the order [rows] in which the [range] loop happens to visit
    them; the result is what the flushed file holds. *)
Definition dumpFile (rows : list (string * string)) : string :=
  foldr (fun r out => GoCsv.Write [r.1; r.2] +:+ out) "" rows.


(** [readMoviesCsv] on a file that opens and holds [content]: the rows,
    or [None] when [ReadAll] fails and [log.Fatal] ends the process. *)
Definition readMoviesCsv (content : string) : option (list (list string)) :=
  match GoCsv.ReadAll content with
  | GoCsv.RecordsRead data => Some data
  | _ => None
  end.

(** No [\r\n] inside the string. *)
Fixpoint crlfFree (s : string) : bool :=
  match s with
  | "" => true
  | String c s' =>
      negb (bool_decide (c = GoCsv.CR) && GoCsv.startsWith GoCsv.LF s') && crlfFree s'
  end.

(** A line as [ReadSlice] cuts it: its only line feed is its last byte. *)
Fixpoint isLine (line : string) : bool :=
  match line with
  | "" => false
  | String c line' =>
      if decide (c = GoCsv.LF) then bool_decide (line' = "") else isLine line'
  end.

(** What the reader makes of a field that the writer wrote: every [\r\n]
    of the field, taken from left to right, has become [\n]. *)
Fixpoint readBack (field : string) : string :=
  match field with
  | "" => ""
  | String c field' =>
      match field' with
      | String c' field'' =>
          if bool_decide (c = GoCsv.CR) && bool_decide (c' = GoCsv.LF)
          then String GoCsv.LF (readBack field'')
          else String c (readBack field')
      | "" => String c ""
      end
  end.



(** ** [export] and [importMovies] (main.go, lines 82-103 and 160-187) *)

Definition SetPageSizeUrl (userId : string) : string :=
  "https://www.kinopoisk.ru/user/" +:+ userId +:+ "/votes/list/vs/novote/perpage/200/".

Definition PageUrl (userId : string) (i : Z) : string :=
  "https://www.kinopoisk.ru/user/" +:+ userId +:+ "/votes/list/vs/novote/page/" +:+
  pretty i +:+ "/".

(** The page loop of [export], entered with counter [i]. *)
Fixpoint export_pages (w : World) (fuel : nat) (userId : string)
    (i pageCount totalParsedMovies : Z) (st : State) : option (Outcome Z) :=
  match fuel with
  | O => None
  | S fuel' =>
      if i <? wrap (pageCount + 1) then
        let url := if i =? 1 then SetPageSizeUrl userId else PageUrl userId i in
        match parsePage w fuel' url st with
        | None => None
        | Some (Panicked e st1) => Some (Panicked e st1)
        | Some (Returned parsedMovies st1) =>
            export_pages w fuel' userId (wrap (i + 1)) pageCount
              (wrap (totalParsedMovies + parsedMovies)) (record (EvSleep 5) st1)
        end
      else Some (Returned totalParsedMovies st)
  end.

(** [export] up to its call of [dumpFile]: the file then holds
    [dumpFile rows] for an order [rows] of the map [movies]. *)
Definition export (w : World) (fuel : nat) (userId : string) (st : State)
    : option (Outcome unit) :=
  match parseFirstPage w fuel (SetPageSizeUrl userId) st with
  | None => None
  | Some (Panicked e st1) => Some (Panicked e st1)
  | Some (Returned (totalMovies, pageSize) st1) =>
      match pageCountOf totalMovies pageSize with
      | Panic e => Some (Panicked e st1)
      | Ok pageCount =>
          match (say (MsgWatchedCount totalMovies) ;;
                 say (MsgPageSize pageSize) ;;
                 say (MsgPagesCount pageCount)) st1 with
          | Panicked e st2 => Some (Panicked e st2)
          | Returned _ st2 =>
              match export_pages w fuel userId 1 pageCount 0 st2 with
              | None => None
              | Some (Panicked e st3) => Some (Panicked e st3)
              | Some (Returned totalParsedMovies st3) =>
                  Some ((say MsgEmptyLine ;;
                         say (MsgParsedTotal totalParsedMovies) ;;
                         say (MsgDumpedCount (Z.of_nat (size (movies st3))))) st3)
              end
          end
      end
  end.

(** [importMovies] on a file that holds [content]; [None] when
    [readMoviesCsv] ends the process. *)
Definition importMovies (w : World) (content : string) (st : State)
    : option (Outcome unit) :=
  match readMoviesCsv content with
  | Some data => Some (importMovies_loop w data st)
  | None => None
  end.

(** ** What a replay leaves in the trace *)

(** The ids sent to the mutation endpoint, in order. *)
Definition posts (tr : list Event) : list Z :=
  omap (fun e => match e with EvPost id => Some id | _ => None end) tr.

(** The per-record reports, in order: the name, and whether the record
    was reported as set. *)
Definition reports (tr : list Event) : list (string * bool) :=
  omap (fun e => match e with
                 | EvPrint (MsgSetWatched name) => Some (name, true)
                 | EvPrint (MsgNotSetWatched name) => Some (name, false)
                 | _ => None
                 end) tr.

(** A row of the file whose first field reads as the [int] [r.1] and
    whose second field is [r.2]. *)
Definition rowOf (row : list string) (r : Z * string) : Prop :=
  exists id more, row = id :: r.2 :: more /\ GoStrconv.Atoi id = GoStrconv.Num r.1.

(** ** The record store as the spec names it *)

Definition withMovies (m : gmap string string) (st : State) : State :=
  {| movies := m; trace := trace st; requests := requests st |}.

(** [merge]: the assignment [movies[id] = name] of line 332, once per
    record, in the order of the sequence. *)
Definition merge (store : gmap string string) (records : list (string * string))
    : gmap string string :=
  foldl (fun m r => <[r.1 := r.2]> m) store records.

(** The anchor and link target that the four nested loops of
    [processMovie] stop at, if any. *)
Definition anchorOf (n : Node) : option (Node * string) :=
  forRange (Children n) (fun c =>
    if isClassName c "info" then
      forRange (Children c) (fun d =>
        if isClassName d "nameRus" then
          forRange (Children d) (fun e =>
            if isElement e "a" then
              forRange (Attr e) (fun a =>
                if bool_decide (Key a = "href") then Some (e, Val a) else None)
            else None)
        else None)
    else None).

(** The record that [processMovie] stores for an entry, when it stores
    one. *)
Definition recordOf (n : Node) : option (string * string) :=
  match anchorOf n with
  | Some (e, href) =>
      match extractId href, Children e with
      | Ok id, firstChild :: _ => Some (id, Data firstChild)
      | _, _ => None
      end
  | None => None
  end.

(** The records of the accepted children, in document order. *)
Definition listing (cs : list Node) : list (string * string) :=
  omap (fun c => if isClassName c "item" || isClassName c "item even"
                 then recordOf c else None) cs.

(** ** Sample documents *)

Definition text (s : string) : Node := mkNode TextNode s [] [].

Definition elem (tag : string) (attrs : list Attribute) (children : list Node) : Node :=
  mkNode ElementNode tag attrs children.

Definition class (v : string) : Attribute := mkAttribute "" "class" v.

Definition page (body : list Node) : Node :=
  mkNode DocumentNode "" [] [elem "html" [] [elem "head" [] []; elem "body" [] body]].

(** A page whose paging block reads [marker]. *)
Definition pagingDoc (marker : string) : Node :=
  page [elem "div" [class "pagesFromTo"] [text marker]].

(** A page with neither a paging block nor a listing. *)
Definition emptyDoc : Node := page [elem "div" [class "error"] [text "503"]].

Definition entry (cls href name : string) : Node :=
  elem "div" [class cls]
    [elem "div" [class "num"] [text "1"];
     elem "div" [class "info"]
       [elem "div" [class "nameRus"]
          [elem "a" [mkAttribute "" "href" href] [text name]]]].

(** A listing page with two entries. *)
Definition listingDoc : Node :=
  page [elem "div" [class "profileFilmsList"]
          [entry "item" "/film/535341/" "1+1 (2011)";
           elem "div" [class "clear"] [];
           entry "item even" "/film/326/" "The Shawshank Redemption (1994)"]].

Definition start : State := mkState ∅ [] 0.

(** ** What the retry loops are told by the site *)

(** [f] returns [a] from every state, without a request or a sleep of its
    own (the extractors only read the document, print and store). *)
Definition extracts {A} (f : M A) (a : A) : Prop :=
  forall st, exists st',
    f st = Returned a st' /\
    requests st' = requests st /\
    sleeps (trace st') = sleeps (trace st).

(** The listing extractor finds [found] movies in [doc]. *)
Definition listingYields (doc : Node) (found : Z) : Prop :=
  extracts (findMovies doc) found.

(** The paging inspection reads [(totalMovies, pageSize)] in [doc]. *)
Definition pagingYields (doc : Node) (r : Z * Z) : Prop :=
  extracts (findPagingHeader doc) r.

(** The next [n] requests for [url], counted from state [st], are
    answered by documents that satisfy [empty]. *)
Definition emptyAttempts (w : World) (url : string) (st : State) (n : nat)
    (empty : Node -> Prop) : Prop :=
  forall k, (k < n)%nat ->
    exists doc, site w (requests st + k) url = Document doc /\ empty doc.

(** ** Sample worlds *)

(** No request gets through. *)
Definition deafWorld : World :=
  {| site := fun _ _ => FetchError; graphql := fun _ _ => PostError |}.

(** The first two requests are answered by an empty render, the later
    ones by the listing. *)
Definition slowWorld : World :=
  {| site := fun k _ => if (k <? 2)%nat then Document emptyDoc else Document listingDoc;
     graphql := fun _ _ => Status "SUCCESS" |}.

(** The same for the probe: two empty renders, then the paging block. *)
Definition slowProbeWorld : World :=
  {| site := fun k _ => if (k <? 2)%nat then Document emptyDoc
                        else Document (pagingDoc "1—200 из 237");
     graphql := fun _ _ => Status "SUCCESS" |}.

(** Every request is answered by a page whose paging block lacks the
    total. *)
Definition brokenHeaderWorld : World :=
  {| site := fun _ _ => Document (pagingDoc "1—50");
     graphql := fun _ _ => Status "SUCCESS" |}.

(** ** Vocabulary for whole documents and whole runs *)

(** The state an outcome leaves the process in. *)
(** Every request is answered by a paging block that shows a total of
    zero. *)
Definition zeroTotalWorld : World :=
  {| site := fun _ _ => Document (pagingDoc "0—0 из 0");
     graphql := fun _ _ => PostError |}.

(** The first request is answered by a paging block of six films, two to
    a page, the later ones by the listing. *)
Definition promptWorld : World :=
  {| site := fun k _ => if (k <? 1)%nat then Document (pagingDoc "1—2 из 6")
                        else Document listingDoc;
     graphql := fun _ _ => PostError |}.

Definition finalState {A} (o : Outcome A) : State :=
  match o with
  | Returned _ st => st
  | Panicked _ st => st
  end.

(** Some node of the tree under [n], [n] included, satisfies [p]. *)
Fixpoint anyNode (p : Node -> bool) (n : Node) : bool :=
  match n with
  | mkNode _ _ _ children =>
      p n || (fix any (cs : list Node) : bool :=
                match cs with
                | [] => false
                | c :: cs' => anyNode p c || any cs'
                end) children
  end.

(** The tests with which [findPagingHeader] and [findMovies] pick their
    block. *)
Definition isPagingBlock (n : Node) : bool :=
  isElement n "div" && isClassName n "pagesFromTo".

Definition isListingBlock (n : Node) : bool :=
  isElement n "div" && isClassName n "profileFilmsList".

(** The URL that the page loop of [export] fetches for page [i]. *)
Definition pageUrlOf (userId : string) (i : Z) : string :=
  if i =? 1 then SetPageSizeUrl userId else PageUrl userId i.

(** The events of one attempt of [parsePage] that finds [found] movies,
    when the loop counter is [i]. *)
Definition parsePageAttempt (url : string) (i found : Z) : list Event :=
  [ EvPrint MsgNewline;
    EvPrint (if i =? 0 then MsgFetchPage url else MsgTryFetchPage (wrap (i + 1)) url);
    EvGet url;
    EvPrint (if found =? 0 then MsgParsedRetry found else MsgParsedSleep found);
    EvSleep 5 ].

(** A listing block in which the same movie is listed twice. *)
Definition repeatedBlock : Node :=
  elem "div" [class "profileFilmsList"]
    [entry "item" "/film/326/" "The Shawshank Redemption";
     entry "item even" "/film/326/" "The Shawshank Redemption (1994)"].

(** The entry of a listing that shows the record [r], and the listing
    block that shows a record sequence, one entry per record. *)
Definition entryOf (r : string * string) : Node :=
  entry "item" ("/film/" +:+ r.1 +:+ "/") r.2.

Definition blockOf (records : list (string * string)) : Node :=
  elem "div" [class "profileFilmsList"] (map entryOf records).

(** * Properties *)

(** ** Strings *)

Section StringFacts.
Import GoStrings.

Lemma app_nil_s s : "" +:+ s = s.
Proof. reflexivity. Qed.

Lemma app_cons_s x a s : String x a +:+ s = String x (a +:+ s).
Proof. reflexivity. Qed.

Ltac sapp := rewrite ?app_cons_s, ?app_nil_s in *.

Lemma length_sliceFrom n s :
  String.length (sliceFrom n s) = (String.length s - n)%nat.
Proof.
  revert n; induction s as [|x s IH]; intros [|n]; simpl; auto.
Qed.

Lemma sliceTo_app a s : sliceTo (String.length a) (a +:+ s) = a.
Proof.
  induction a as [|x a IH]; sapp; simpl; [by destruct s | by rewrite IH].
Qed.

Lemma sliceFrom_app a s : sliceFrom (String.length a) (a +:+ s) = s.
Proof. induction a as [|x a IH]; sapp; simpl; auto. Qed.

Lemma length_app_s a b :
  String.length (a +:+ b) = (String.length a + String.length b)%nat.
Proof. induction a as [|x a IH]; sapp; simpl; auto. Qed.

Lemma app_assoc_s a b c : (a +:+ b) +:+ c = a +:+ (b +:+ c).
Proof. induction a as [|x a IH]; sapp; [done | by f_equal]. Qed.

Lemma CountByte_app c a b :
  CountByte c (a +:+ b) = (CountByte c a + CountByte c b)%nat.
Proof.
  induction a as [|x a IH]; sapp; simpl; [done|].
  case_decide; rewrite IH; lia.
Qed.

Lemma HasPrefix_app p s : HasPrefix (p +:+ s) p = true.
Proof.
  induction p as [|x p IH]; sapp; simpl; [done|].
  by rewrite decide_True.
Qed.

Lemma HasPrefix_length s p :
  HasPrefix s p = true -> (String.length p <= String.length s)%nat.
Proof.
  revert s; induction p as [|x p IH]; intros [|y s]; simpl; try lia; try done.
  case_decide; [|done]. intros Hp%IH. lia.
Qed.

Lemma Index_bound s sep m :
  Index s sep = Some m -> (m + String.length sep <= String.length s)%nat.
Proof.
  revert m; induction s as [|x s IH]; intros m; simpl.
  - destruct (HasPrefix "" sep) eqn:E; [|done].
    intros [= <-]. apply HasPrefix_length in E. simpl in *; lia.
  - destruct (HasPrefix (String x s) sep) eqn:E.
    + intros [= <-]. apply HasPrefix_length in E. simpl in *; lia.
    + destruct (Index s sep) as [k|]; [|done].
      intros [= <-]. specialize (IH k eq_refl). lia.
Qed.

(** A stretch [a] without the first byte of the separator is skipped. *)
Lemma Index_free c0 sep' a s :
  CountByte c0 a = 0%nat ->
  Index (a +:+ s) (String c0 sep') =
    (fun m => (String.length a + m)%nat) <$> Index s (String c0 sep').
Proof.
  induction a as [|x a IH]; intros Hfree; sapp.
  - by destruct (Index s _).
  - simpl in Hfree. case_decide as Hx; [done|].
    specialize (IH Hfree).
    cbn [Index HasPrefix]. rewrite decide_False by done.
    rewrite IH. by destruct (Index s _).
Qed.

Lemma Index_here sep s : Index (sep +:+ s) sep = Some 0%nat.
Proof.
  pose proof (HasPrefix_app sep s) as H.
  destruct (sep +:+ s); simpl; by rewrite H.
Qed.

Lemma Index_none c0 sep' a :
  CountByte c0 a = 0%nat -> Index a (String c0 sep') = None.
Proof.
  induction a as [|x a IH]; [done|].
  simpl. case_decide; [done|]. intros ->%IH. done.
Qed.

Lemma genSplit_cut c0 sep' r a b :
  CountByte c0 a = 0%nat ->
  genSplit (S r) (a +:+ String c0 sep' +:+ b) (String c0 sep') =
    a :: genSplit r b (String c0 sep').
Proof.
  intros Hfree. cbn [genSplit].
  rewrite (Index_free _ _ _ _ Hfree), Index_here. cbn [fmap option_fmap option_map].
  rewrite Nat.add_0_r, sliceTo_app.
  rewrite <- (length_app_s a (String c0 sep')), <- app_assoc_s, sliceFrom_app.
  done.
Qed.

Lemma genSplit_last c0 sep' r a :
  CountByte c0 a = 0%nat -> genSplit r a (String c0 sep') = [a].
Proof. intros H. destruct r; simpl; [done|]. by rewrite Index_none. Qed.

Lemma genSplit_enough c0 sep' r r' s :
  (String.length s <= r)%nat -> (String.length s <= r')%nat ->
  genSplit r s (String c0 sep') = genSplit r' s (String c0 sep').
Proof.
  revert r' s; induction r as [|r IH]; intros r' s Hr Hr'.
  - destruct s; simpl in Hr; [|lia]. by destruct r'.
  - destruct r' as [|r'].
    + destruct s; simpl in Hr'; [|lia]. done.
    + cbn [genSplit]. destruct (Index s _) as [m|] eqn:E; [|done].
      apply Index_bound in E. simpl in E.
      f_equal. apply IH; rewrite length_sliceFrom; simpl; lia.
Qed.

Lemma Split_cut c0 sep' a b :
  CountByte c0 a = 0%nat ->
  Split (a +:+ String c0 sep' +:+ b) (String c0 sep') =
    a :: Split b (String c0 sep').
Proof.
  intros Hfree. unfold Split.
  rewrite !length_app_s. simpl String.length.
  rewrite Nat.add_succ_l, Nat.add_succ_r.
  rewrite genSplit_cut by done. f_equal.
  apply genSplit_enough; lia.
Qed.

Lemma Split_last c0 sep' a :
  CountByte c0 a = 0%nat -> Split a (String c0 sep') = [a].
Proof. apply genSplit_last. Qed.

End StringFacts.

(** ** [extractId] *)

Section ExtractId.
Import GoStrings.

Lemma Index_byte_none c s :
  Index s (String c "") = None -> CountByte c s = 0%nat.
Proof.
  induction s as [|x s IH]; [done|].
  simpl. case_decide; [done|].
  destruct (Index s _); [done|]. auto.
Qed.

Lemma Index_byte_some c s m :
  Index s (String c "") = Some m ->
  CountByte c s = S (CountByte c (sliceFrom (m + 1) s)).
Proof.
  revert m; induction s as [|x s IH]; intros m; [done|].
  simpl. case_decide.
  - intros [= <-]. done.
  - destruct (Index s _) as [k|]; [|done].
    intros [= <-]. simpl. auto.
Qed.

Lemma genSplit_byte_length c r s :
  (String.length s <= r)%nat ->
  length (genSplit r s (String c "")) = S (CountByte c s).
Proof.
  revert s; induction r as [|r IH]; intros s Hr.
  - destruct s; simpl in *; [done | lia].
  - cbn [genSplit]. destruct (Index s _) as [m|] eqn:E.
    + rewrite (Index_byte_some _ _ _ E).
      apply Index_bound in E. simpl in E.
      cbn [length]. f_equal. apply IH.
      rewrite length_sliceFrom. lia.
    + by rewrite (Index_byte_none _ _ E).
Qed.

(** [strings.Split] on a one-byte separator gives one segment more than
    there are separators. *)
Lemma Split_byte_length c s :
  length (Split s (String c "")) = S (CountByte c s).
Proof. by apply genSplit_byte_length. Qed.

Lemma at_Ok_lt {A} (xs : list A) i :
  (exists x, at_ xs i = Ok x) <-> (i < length xs)%nat.
Proof.
  unfold at_. rewrite <- lookup_lt_is_Some.
  destruct (xs !! i); split.
  - eauto.
  - eauto.
  - by intros [? ?].
  - by intros [? ?].
Qed.

Lemma at_Panic_ge {A} (xs : list A) i :
  at_ xs i = Panic IndexOutOfRange <-> (length xs <= i)%nat.
Proof.
  unfold at_. rewrite <- lookup_ge_None.
  destruct (xs !! i); split; done.
Qed.

End ExtractId.

(** C10. [extractId] is partial: it returns a value exactly for the hrefs
    with at least two ['/'] bytes (three or more segments); with fewer,
    indexing the third segment is out of range and the call panics, and so
    does the assignment of [processMovie] that makes the call. *)
Theorem extractId_partial (href : string) :
  extractId "" = Panic IndexOutOfRange /\
  extractId "535341" = Panic IndexOutOfRange /\
  extractId "film/535341" = Panic IndexOutOfRange /\
  (extractId href = Panic IndexOutOfRange <->
     (GoStrings.CountByte "/" href < 2)%nat) /\
  ((exists id, extractId href = Ok id) <->
     (2 <= GoStrings.CountByte "/" href)%nat) /\
  ((forall e st, storeMovie e href st = Panicked IndexOutOfRange st) <->
     (GoStrings.CountByte "/" href < 2)%nat).
Proof.
  assert (Hp : extractId href = Panic IndexOutOfRange <->
               (GoStrings.CountByte "/" href < 2)%nat).
  { unfold extractId. rewrite at_Panic_ge, Split_byte_length. lia. }
  do 3 (split; [reflexivity|]).
  split; [exact Hp|]. split.
  - unfold extractId. rewrite at_Ok_lt, Split_byte_length. lia.
  - rewrite <- Hp. split.
    + intros H. specialize (H (mkNode TextNode "" [] []) (mkState ∅ [] 0)).
      unfold storeMovie, bind, liftR in H.
      destruct (extractId href) as [id|e]; [done|]. by inversion H.
    + intros H e st. unfold storeMovie, bind, liftR. by rewrite H.
Qed.

(** C2, as the code has it.  [extractId] returns the element of index 2
    of [strings.Split(href, "/")], the first element being the text before
    the first ['/']: ["type"] on the href of the claim, and [s2] on every
    href [s0/s1/s2] or [s0/s1/s2/...] whose first three segments hold no
    ['/'], so the identifier of a [/film/<ID>/] link. *)
Theorem extractId_third_segment (s0 s1 s2 rest : string) :
  GoStrings.CountByte "/" s0 = 0%nat ->
  GoStrings.CountByte "/" s1 = 0%nat ->
  GoStrings.CountByte "/" s2 = 0%nat ->
  extractId "/film/type/1/id/535341/somepath/" = Ok "type" /\
  extractId (s0 +:+ "/" +:+ s1 +:+ "/" +:+ s2) = Ok s2 /\
  extractId (s0 +:+ "/" +:+ s1 +:+ "/" +:+ s2 +:+ "/" +:+ rest) = Ok s2.
Proof.
  intros H0 H1 H2. split; [reflexivity|].
  unfold extractId. split.
  - rewrite (Split_cut _ _ _ _ H0), (Split_cut _ _ _ _ H1), (Split_last _ _ _ H2).
    reflexivity.
  - rewrite (Split_cut _ _ _ _ H0), (Split_cut _ _ _ _ H1), (Split_cut _ _ _ _ H2).
    reflexivity.
Qed.

Lemma extractId_third_segment_witness :
  extractId ("" +:+ "/" +:+ "film" +:+ "/" +:+ "535341" +:+ "/" +:+ "") = Ok "535341".
Proof.
  apply (extractId_third_segment "" "film" "535341" ""); reflexivity.
Defined.

(** C2, as the claim has it, fails on its own example: the third element
    of the split of ["/film/type/1/id/535341/somepath/"] is ["type"], and
    for the shape [/type/<n>/id/<ID>/] it is [<n>]. *)
Lemma extractId_claim_example_fails :
  extractId "/film/type/1/id/535341/somepath/" = Ok "type" /\
  extractId "/film/type/1/id/535341/somepath/" <> Ok "535341" /\
  extractId "/type/1/id/535341/" = Ok "1" /\
  extractId "/type/1/id/535341/" <> Ok "535341".
Proof. repeat split; (reflexivity || discriminate). Qed.

(** ** Integers *)

Lemma wrap_small z :
  GoStrconv.minInt <= z <= GoStrconv.maxInt -> wrap z = z.
Proof.
  unfold wrap, GoStrconv.minInt, GoStrconv.maxInt. intros H.
  rewrite Z.mod_small; lia.
Qed.

Lemma wrap_wrap_add a b : wrap (wrap a + b) = wrap (a + b).
Proof.
  unfold wrap. f_equal.
  replace ((a + 2 ^ 63) mod 2 ^ 64 - 2 ^ 63 + b + 2 ^ 63)
    with ((a + 2 ^ 63) mod 2 ^ 64 + b) by lia.
  rewrite Zplus_mod_idemp_l. f_equal. lia.
Qed.

(** C6. For a total of at least zero and a page size above zero, both
    [int]s, the page count that [export] computes is the ceiling of
    [totalItems / pageSize]: the one integer [n] with
    [pageSize * (n - 1) < totalItems <= pageSize * n]; 237 items in pages
    of 50 make 5 pages. *)
Theorem pageCount_ceiling (totalItems pageSize : Z) :
  0 <= totalItems <= GoStrconv.maxInt ->
  0 < pageSize <= GoStrconv.maxInt ->
  pageCountOf 237 50 = Ok 5 /\
  exists pageCount,
    pageCountOf totalItems pageSize = Ok pageCount /\
    pageSize * (pageCount - 1) < totalItems <= pageSize * pageCount /\
    forall n, pageSize * (n - 1) < totalItems <= pageSize * n -> n = pageCount.
Proof.
  intros Ht Hp. split; [reflexivity|].
  unfold pageCountOf, quo, rem, bindR.
  destruct (Z.eqb_spec pageSize 0) as [|_]; [lia|].
  rewrite Z.quot_div_nonneg, Z.rem_mod_nonneg by lia.
  pose proof (Z.div_mod totalItems pageSize ltac:(lia)) as Hdm.
  pose proof (Z.mod_pos_bound totalItems pageSize ltac:(lia)) as Hm.
  assert (Hq : 0 <= totalItems / pageSize <= totalItems).
  { split; [apply Z.div_pos; lia|]. apply Z.div_le_upper_bound; nia. }
  rewrite (wrap_small (totalItems / pageSize))
    by (unfold GoStrconv.minInt, GoStrconv.maxInt in *; lia).
  destruct (Z.eqb_spec (totalItems mod pageSize) 0) as [E|E].
  - eexists; split; [reflexivity|]. split; [nia|]. intros n Hn. nia.
  - assert (totalItems / pageSize < totalItems) by nia.
    rewrite wrap_small by (unfold GoStrconv.minInt, GoStrconv.maxInt in *; lia).
    eexists; split; [reflexivity|]. split; [nia|]. intros n Hn. nia.
Qed.

Lemma pageCount_ceiling_witness :
  exists pageCount,
    pageCountOf 201 200 = Ok pageCount /\
    200 * (pageCount - 1) < 201 <= 200 * pageCount /\
    forall n, 200 * (n - 1) < 201 <= 200 * n -> n = pageCount.
Proof.
  apply (pageCount_ceiling 201 200); unfold GoStrconv.maxInt; lia.
Defined.

(** ** The paging header *)

Section PagingHeader.
Import GoStrings GoStrconv.

Lemma digits_free c s acc n :
  digits acc s = Some n -> isDigit c = false -> CountByte c s = 0%nat.
Proof.
  revert acc; induction s as [|x s IH]; intros acc; [done|].
  simpl. destruct (isDigit x) eqn:Hx; [|done].
  intros Hd Hc. case_decide as E; [congruence|]. eauto.
Qed.

(** A string that [Atoi] accepts holds only digits after an optional
    sign. *)
Lemma Atoi_free c s n :
  Atoi s = Num n -> isDigit c = false -> c <> "-"%char -> c <> "+"%char ->
  CountByte c s = 0%nat.
Proof.
  destruct s as [|x s]; [done|]. unfold Atoi.
  intros H Hc Hm Hp.
  destruct (bool_decide (x = "-"%char) || bool_decide (x = "+"%char)) eqn:Hs.
  - destruct s as [|y s]; [done|].
    destruct (digits 0 (String y s)) as [v|] eqn:Hd; [|done].
    pose proof (digits_free c _ _ _ Hd Hc) as Hz.
    remember (String y s) as body. simpl. rewrite Hz.
    destruct (decide (x = c)) as [E|E]; [|done]. subst x.
    apply orb_prop in Hs as [Hs|Hs]; apply bool_decide_eq_true in Hs; done.
  - destruct (digits 0 (String x s)) as [v|] eqn:Hd; [|done].
    exact (digits_free _ _ _ _ Hd Hc).
Qed.

End PagingHeader.

(** C5. For every marker text [<first>—<last> из <total>] whose three
    segments are numerals that [strconv.Atoi] accepts (they fit an [int])
    and whose [last - first + 1] fits an [int] too, the inspection returns
    the total and the page size [last - first + 1], and prints nothing;
    ["1—50 из 237"] gives [(237, 50)]. *)
Theorem inspectPaging_valid (first last total : string) (f l t : Z) (st : State) :
  GoStrconv.Atoi first = GoStrconv.Num f ->
  GoStrconv.Atoi last = GoStrconv.Num l ->
  GoStrconv.Atoi total = GoStrconv.Num t ->
  GoStrconv.minInt <= l - f + 1 <= GoStrconv.maxInt ->
  inspectPaging "1—50 из 237" st = Returned (237, 50) st /\
  inspectPaging (first +:+ "—" +:+ last +:+ " из " +:+ total) st =
    Returned (t, l - f + 1) st.
Proof.
  intros Hf Hl Ht Hfit. split; [reflexivity|].
  assert (Hsp : forall s n, GoStrconv.Atoi s = GoStrconv.Num n ->
                            GoStrings.CountByte " " s = 0%nat)
    by (intros s n H; by apply (Atoi_free _ _ _ H)).
  assert (Hda : forall s n, GoStrconv.Atoi s = GoStrconv.Num n ->
                            GoStrings.CountByte "226" s = 0%nat)
    by (intros s n H; by apply (Atoi_free _ _ _ H)).
  unfold inspectPaging.
  rewrite <- (app_assoc_s first "—"), <- (app_assoc_s (first +:+ "—") last).
  rewrite Split_cut, Split_last by
    (rewrite ?CountByte_app, ?(Hsp _ _ Hf), ?(Hsp _ _ Hl), ?(Hsp _ _ Ht); reflexivity).
  rewrite (app_assoc_s first "—").
  unfold bind, liftR, at_. cbn [lookup list_lookup].
  rewrite Split_cut, Split_last by
    (rewrite ?(Hda _ _ Hf), ?(Hda _ _ Hl); reflexivity).
  cbn [lookup list_lookup]. rewrite Hf, Hl, Ht.
  rewrite wrap_wrap_add, wrap_small by done. reflexivity.
Qed.

Lemma inspectPaging_valid_witness :
  inspectPaging ("201" +:+ "—" +:+ "400" +:+ " из " +:+ "1234") (mkState ∅ [] 0) =
    Returned (1234, 400 - 201 + 1) (mkState ∅ [] 0).
Proof.
  apply (inspectPaging_valid "201" "400" "1234" 201 400 1234);
    [reflexivity | reflexivity | reflexivity |].
  unfold GoStrconv.minInt, GoStrconv.maxInt; lia.
Defined.

Example findPagingHeader_sample :
  findPagingHeader (pagingDoc "1—200 из 237") start = Returned (237, 200) start.
Proof. reflexivity. Qed.

Example findMovies_sample :
  exists st, findMovies listingDoc start = Returned 2 st /\
             movies st = {[ "535341" := "1+1 (2011)";
                            "326" := "The Shawshank Redemption (1994)" ]}.
Proof.
  eexists. split; [reflexivity|]. vm_compute. reflexivity.
Qed.

(** C3, on the code.  A marker with numeric segments but without one of
    the two separators makes the inspection index a one-element slice:
    the call panics with an index out of range, in [findPagingHeader] and
    so in the probe, instead of returning the zero result that a
    non-numeric segment gives. *)
Theorem inspectPaging_missing_separator_panics (st : State) :
  inspectPaging "1—50" st = Panicked IndexOutOfRange st /\
  inspectPaging "5 из 10" st = Panicked IndexOutOfRange st /\
  inspectPaging "237" st = Panicked IndexOutOfRange st /\
  findPagingHeader (pagingDoc "1—50") st = Panicked IndexOutOfRange st /\
  (exists st',
     parseFirstPage brokenHeaderWorld 5 (SetPageSizeUrl "1") st =
       Some (Panicked IndexOutOfRange st') /\
     requests st' = S (requests st)) /\
  inspectPaging "x—50 из 237" st =
    Returned (0, 0) (record (EvPrint MsgErrorParsingHTML) st).
Proof.
  do 4 (split; [reflexivity|]). split; [|reflexivity].
  eexists. split; reflexivity.
Qed.

(** ** The record store *)

Section RecordStore.

Lemma forRange_ext {A R} (xs : list A) (f g : A -> option R) :
  (forall x, f x = g x) -> forRange xs f = forRange xs g.
Proof.
  intros Hfg. induction xs as [|x xs IH]; simpl; [done|].
  by rewrite Hfg, IH.
Qed.

Lemma forRange_fmap {A R R'} (xs : list A) (h : A -> option R) (g : R -> R') :
  forRange xs (fun x => g <$> h x) = g <$> forRange xs h.
Proof.
  induction xs as [|x xs IH]; simpl; [done|].
  destruct (h x); simpl; [done | exact IH].
Qed.

(** [processMovie] searches the anchor, then stores at most one record. *)
Lemma processMovie_anchor n st :
  processMovie n st =
    match anchorOf n with
    | Some (e, href) => storeMovie e href st
    | None => Returned false st
    end.
Proof.
  unfold processMovie.
  set (g := fun p : Node * string => storeMovie p.1 p.2 st).
  assert (Hg : forRange (Children n) (fun c =>
      if isClassName c "info" then
        forRange (Children c) (fun d =>
          if isClassName d "nameRus" then
            forRange (Children d) (fun e =>
              if isElement e "a" then
                forRange (Attr e) (fun a =>
                  if bool_decide (Key a = "href")
                  then Some (storeMovie e (Val a) st)
                  else None)
              else None)
          else None)
      else None) = g <$> anchorOf n).
  { unfold anchorOf. rewrite <- forRange_fmap.
    apply forRange_ext; intros c. destruct (isClassName c "info"); [|done].
    rewrite <- forRange_fmap.
    apply forRange_ext; intros d. destruct (isClassName d "nameRus"); [|done].
    rewrite <- forRange_fmap.
    apply forRange_ext; intros e. destruct (isElement e "a"); [|done].
    rewrite <- forRange_fmap.
    apply forRange_ext; intros a. by destruct (bool_decide _). }
  rewrite Hg. by destruct (anchorOf n) as [[e href]|].
Qed.

Lemma processMovie_cases n st :
  match recordOf n with
  | Some (id, name) =>
      processMovie n st = Returned true (withMovies (<[id := name]> (movies st)) st)
  | None =>
      processMovie n st = Returned false st \/
      exists e, processMovie n st = Panicked e st
  end.
Proof.
  rewrite processMovie_anchor. unfold recordOf.
  destruct (anchorOf n) as [[e href]|]; [|by left].
  unfold storeMovie, bind, liftR.
  destruct (extractId href) as [id|err]; [|right; eauto].
  destruct (Children e) as [|fc ?]; [right; by eexists|].
  reflexivity.
Qed.

(** A run of [processMovies] that returns has merged the listing into
    the store, and does the same from any other state. *)
Lemma processMovies_loop_merge cs :
  forall k st k' st1,
    processMovies_loop cs k st = Returned k' st1 ->
    forall st2,
      processMovies_loop cs k st2 =
        Returned k' (withMovies (merge (movies st2) (listing cs)) st2).
Proof.
  induction cs as [|c cs IH]; intros k st k' st1 Hrun st2.
  - simpl in *. inversion Hrun; subst. by destruct st2.
  - cbn [processMovies_loop listing omap list_omap] in *.
    fold (listing cs).
    destruct (isClassName c "item" || isClassName c "item even"); [|eauto].
    unfold bind in *.
    pose proof (processMovie_cases c st) as H1.
    pose proof (processMovie_cases c st2) as H2.
    destruct (recordOf c) as [[id name]|].
    + rewrite H1 in Hrun. rewrite H2.
      rewrite (IH _ _ _ _ Hrun). done.
    + destruct H1 as [H1|[e H1]]; rewrite H1 in Hrun; [|done].
      destruct H2 as [H2|[e H2]]; rewrite H2.
      * eauto.
      * rewrite processMovie_anchor in H1, H2.
        destruct (anchorOf c) as [[a href]|]; [|done].
        unfold storeMovie, bind, liftR in *.
        destruct (extractId href); [|done].
        by destruct (Children a).
Qed.

Lemma merge_union store records :
  merge store records = list_to_map (reverse records) ∪ store.
Proof.
  unfold merge. revert store; induction records as [|[id name] rs IH]; intros store.
  - simpl. by rewrite (left_id_L ∅ (∪)).
  - simpl. rewrite IH, reverse_cons, list_to_map_app. simpl.
    rewrite <- (assoc_L (∪)). f_equal.
    by rewrite insert_union_singleton_l, insert_empty.
Qed.

Lemma merge_twice store records :
  merge (merge store records) records = merge store records.
Proof.
  rewrite !merge_union, (assoc_L (∪)). f_equal. apply (idemp_L (∪)).
Qed.

Lemma merge_lookup_notin records : forall (store : gmap string string) id,
  id ∉ records.*1 -> merge store records !! id = store !! id.
Proof.
  induction records as [|[id' name'] rs IH]; intros store id Hid; [done|].
  rewrite fmap_cons, not_elem_of_cons in Hid. destruct Hid as [Hne Hid].
  unfold merge in *. simpl. rewrite (IH _ _ Hid). by apply lookup_insert_ne.
Qed.

Lemma merge_lookup_last (store : gmap string string) pre id name post :
  id ∉ post.*1 -> merge store (pre ++ (id, name) :: post) !! id = Some name.
Proof.
  intros Hid. unfold merge. rewrite foldl_app. simpl.
  rewrite (merge_lookup_notin post _ id Hid). apply lookup_insert_eq.
Qed.

Lemma extractId_film id :
  GoStrings.CountByte "/" id = 0%nat -> extractId ("/film/" +:+ id +:+ "/") = Ok id.
Proof.
  intros Hid. unfold extractId.
  change ("/film/" +:+ id +:+ "/") with ("" +:+ "/" +:+ "film" +:+ "/" +:+ id +:+ "/" +:+ "").
  rewrite (Split_cut "/" "" "" _ eq_refl), (Split_cut "/" "" "film" _ eq_refl),
    (Split_cut "/" "" id _ Hid).
  reflexivity.
Qed.

Lemma recordOf_entryOf r :
  GoStrings.CountByte "/" r.1 = 0%nat -> recordOf (entryOf r) = Some r.
Proof.
  intros Hid. unfold recordOf.
  change (anchorOf (entryOf r))
    with (Some (elem "a" [mkAttribute "" "href" ("/film/" +:+ r.1 +:+ "/")] [text r.2],
                "/film/" +:+ r.1 +:+ "/")).
  cbn iota beta. rewrite (extractId_film _ Hid). by destruct r.
Qed.

Lemma listing_entries records :
  Forall (fun r => GoStrings.CountByte "/" r.1 = 0%nat) records ->
  listing (map entryOf records) = records.
Proof.
  induction 1 as [|r rs Hr _ IH]; [done|].
  cbn [map listing omap list_omap]. fold (listing (map entryOf rs)).
  change (isClassName (entryOf r) "item" || isClassName (entryOf r) "item even") with true.
  cbn iota. by rewrite (recordOf_entryOf _ Hr), IH.
Qed.

Lemma processMovies_loop_entries records : forall k st,
  Forall (fun r => GoStrings.CountByte "/" r.1 = 0%nat) records ->
  exists k' st1, processMovies_loop (map entryOf records) k st = Returned k' st1.
Proof.
  induction records as [|r rs IH]; intros k st Hrs; [by exists k, st|].
  apply Forall_cons in Hrs as [Hr Hrs].
  cbn [map processMovies_loop].
  change (isClassName (entryOf r) "item" || isClassName (entryOf r) "item even") with true.
  cbn iota. unfold bind.
  pose proof (processMovie_cases (entryOf r) st) as Hc.
  rewrite (recordOf_entryOf _ Hr) in Hc. destruct r as [id name].
  rewrite Hc. by apply IH.
Qed.

End RecordStore.

(** C7. The merge of the code is [processMovies]: one assignment
    [movies[id] = name] per entry of the listing, in document order.
    Every run of it that returns has left each id of the listing under
    the name of its last record, whether or not the id was in the store
    before, has left every other id as it was, and so has computed
    [merge]; run again on the same listing from the store it has left,
    it returns the same count and the very same store, so the same size
    and the same [(id, name)] pairs.  Every record sequence whose ids
    hold no ['/'], as the ids that [extractId] returns, is the listing
    of such a run, from every store.  And one assignment, for the entry
    of a record [(id, name)], leaves [id] under [name], replacing the
    name when the id was present, with the size of the store unchanged,
    and adding the id when it was not; every other id is as it was. *)
Theorem merge_idempotent_last_write_wins (st : State) :
  (forall container count st1,
     processMovies container st = Returned count st1 ->
     (forall pre id name post,
        listing (Children container) = pre ++ (id, name) :: post ->
        id ∉ post.*1 ->
        movies st1 !! id = Some name) /\
     (forall id,
        id ∉ (listing (Children container)).*1 ->
        movies st1 !! id = movies st !! id) /\
     movies st1 = merge (movies st) (listing (Children container)) /\
     processMovies container st1 = Returned count st1) /\
  (forall records,
     Forall (fun r => GoStrings.CountByte "/" r.1 = 0%nat) records ->
     listing (Children (blockOf records)) = records /\
     exists count st1, processMovies (blockOf records) st = Returned count st1) /\
  (forall id name,
     GoStrings.CountByte "/" id = 0%nat ->
     exists st1,
       processMovie (entryOf (id, name)) st = Returned true st1 /\
       movies st1 !! id = Some name /\
       (forall id', id' <> id -> movies st1 !! id' = movies st !! id') /\
       size (movies st1) =
         match movies st !! id with
         | Some _ => size (movies st)
         | None => S (size (movies st))
         end).
Proof.
  split; [|split].
  - intros container count st1 Hrun. unfold processMovies in *.
    pose proof (processMovies_loop_merge _ _ _ _ _ Hrun st) as Hst.
    rewrite Hrun in Hst. injection Hst as Hst1.
    assert (Hm : movies st1 = merge (movies st) (listing (Children container)))
      by (by rewrite Hst1).
    split; [|split; [|split]].
    + intros pre id name post Hrecords Hid.
      rewrite Hm, Hrecords. by apply merge_lookup_last.
    + intros id Hid. rewrite Hm. by apply merge_lookup_notin.
    + exact Hm.
    + rewrite (processMovies_loop_merge _ _ _ _ _ Hrun st1). f_equal.
      rewrite Hst1 at 3. rewrite Hm. unfold withMovies; simpl.
      rewrite merge_twice. by rewrite Hst1.
  - intros records Hrecords. split.
    + by apply listing_entries.
    + by apply processMovies_loop_entries.
  - intros id name Hid.
    pose proof (processMovie_cases (entryOf (id, name)) st) as Hc.
    rewrite (recordOf_entryOf (id, name) Hid) in Hc.
    eexists. split; [exact Hc|]. simpl. split; [apply lookup_insert_eq|]. split.
    + intros id' Hne. by apply lookup_insert_ne.
    + destruct (movies st !! id) eqn:E.
      * apply map_size_insert_Some. eauto.
      * by apply map_size_insert_None.
Qed.

(** ** Replay *)

Section Replay.
Variable w : World.

Lemma setMovieWatched_once movieId st :
  exists ok st',
    setMovieWatched w movieId st = Returned ok st' /\
    posts (trace st') = posts (trace st) ++ [movieId] /\
    reports (trace st') = reports (trace st) /\
    sleeps (trace st') = sleeps (trace st) /\
    requests st' = S (requests st) /\
    (ok = true <-> graphql w (requests st) movieId = Status "SUCCESS").
Proof.
  unfold setMovieWatched, bind, post, say, emit, ret, record.
  destruct (graphql w (requests st) movieId) as [| |status] eqn:E;
    do 2 eexists; (split; [reflexivity|]); simpl;
    unfold posts, reports, sleeps; rewrite ?omap_app; simpl;
    rewrite ?app_nil_r; repeat split; try done.
  - intros ?%bool_decide_eq_true. by subst.
  - intros [= ->]. by apply bool_decide_eq_true.
Qed.

(** One record whose id parses: one call, one report, one second of
    sleep, then the rest of the file. *)
Lemma importMovies_step id movieId name more data st ok st1 :
  GoStrconv.Atoi id = GoStrconv.Num movieId ->
  setMovieWatched w movieId st = Returned ok st1 ->
  importMovies_loop w ((id :: name :: more) :: data) st =
    importMovies_loop w data
      (record (EvSleep 1)
         (record (EvPrint (if ok then MsgSetWatched name
                           else MsgNotSetWatched name)) st1)).
Proof.
  intros Hid Hset.
  cbn [importMovies_loop]. unfold bind at 1 2; simpl.
  rewrite Hid. unfold bind at 1. rewrite Hset.
  reflexivity.
Qed.

Lemma importMovies_rows rows records :
  Forall2 rowOf rows records ->
  forall st,
  exists st1,
    (forall tail,
       importMovies_loop w (rows ++ tail) st = importMovies_loop w tail st1) /\
    posts (trace st1) = posts (trace st) ++ records.*1 /\
    (reports (trace st1)).*1 = (reports (trace st)).*1 ++ records.*2 /\
    sleeps (trace st1) = sleeps (trace st) ++ replicate (length rows) 1 /\
    requests st1 = (requests st + length rows)%nat.
Proof.
  induction 1 as [|row [n name] rows records (id & more & -> & Hid) _ IH];
    intros st.
  - exists st. simpl. rewrite !app_nil_r, Nat.add_0_r. done.
  - simpl in Hid.
    destruct (setMovieWatched_once n st)
      as (ok & st1 & Hset & Hp & Hr & Hs & Hq & _).
    destruct (IH (record (EvSleep 1)
           (record (EvPrint (if ok then MsgSetWatched name
                             else MsgNotSetWatched name)) st1)))
      as (st2 & Hrun & Hp2 & Hr2 & Hs2 & Hq2).
    exists st2. split; [|split; [|split; [|split]]].
    + intros tail. rewrite <- Hrun.
      exact (importMovies_step id n name more _ st ok st1 Hid Hset).
    + rewrite Hp2. simpl. unfold posts in *. rewrite !omap_app. simpl.
      rewrite Hp. destruct ok; simpl; by rewrite !app_nil_r, <- app_assoc.
    + rewrite Hr2. simpl. unfold reports in *. rewrite !omap_app. simpl.
      rewrite Hr. destruct ok; simpl;
        by rewrite !app_nil_r, fmap_app, <- app_assoc.
    + rewrite Hs2. simpl. unfold sleeps in *. rewrite !omap_app. simpl.
      rewrite Hs. destruct ok; simpl; by rewrite !app_nil_r, <- app_assoc.
    + rewrite Hq2. simpl. rewrite Hq. lia.
Qed.

End Replay.

(** C9. Replay of a file whose first rows have ids that parse, followed
    by a row whose id does not: whatever the endpoint answers, every
    leading row is sent exactly once, in order, and reported, failed calls
    included, and the loop goes on to the next row; the row with the bad
    id ends the run with one message, and no row after it is sent, slept
    for or reported.  A call that fails is followed by its report, the
    one-second sleep and the next row. *)
Theorem replay_hard_stop_and_best_effort
    (w : World) (rows : list (list string)) (records : list (Z * string))
    (id name : string) (more : list string) (post : list (list string))
    (st : State) :
  Forall2 rowOf rows records ->
  (forall n, GoStrconv.Atoi id <> GoStrconv.Num n) ->
  (exists st1,
     importMovies_loop w rows st = Returned tt st1 /\
     importMovies_loop w (rows ++ (id :: name :: more) :: post) st =
       Returned tt (record (EvPrint MsgConvertMovieId) st1) /\
     posts (trace st1) = posts (trace st) ++ records.*1 /\
     (reports (trace st1)).*1 = (reports (trace st)).*1 ++ records.*2 /\
     sleeps (trace st1) = sleeps (trace st) ++ replicate (length rows) 1) /\
  (forall id' n name' more' data st0 st',
     GoStrconv.Atoi id' = GoStrconv.Num n ->
     setMovieWatched w n st0 = Returned false st' ->
     importMovies_loop w ((id' :: name' :: more') :: data) st0 =
       importMovies_loop w data
         (record (EvSleep 1) (record (EvPrint (MsgNotSetWatched name')) st'))).
Proof.
  intros Hrows Hbad. split.
  - destruct (importMovies_rows w rows records Hrows st)
      as (st1 & Hrun & Hp & Hr & Hs & _).
    exists st1. split; [|split; [|done]].
    + specialize (Hrun []). by rewrite app_nil_r in Hrun.
    + rewrite Hrun. cbn [importMovies_loop]. unfold bind at 1 2; simpl.
      destruct (GoStrconv.Atoi id) as [n| |] eqn:E; [by destruct (Hbad n)|done|done].
  - intros id' n name' more' data st0 st' Hid Hset.
    exact (importMovies_step w id' n name' more' data st0 false st' Hid Hset).
Qed.

(** ** The retry loops *)

Section Retry.
Variables (w : World) (url : string).

Lemma sleeps_record_sleep st s :
  sleeps (trace (record (EvSleep s) st)) = sleeps (trace st) ++ [s].
Proof. unfold sleeps; simpl. by rewrite omap_app. Qed.

Lemma sleeps_record_print st m :
  sleeps (trace (record (EvPrint m) st)) = sleeps (trace st).
Proof. unfold sleeps; simpl. by rewrite omap_app, app_nil_r. Qed.

Lemma sleeps_get st u :
  sleeps (trace st ++ [EvGet u]) = sleeps (trace st).
Proof. unfold sleeps. by rewrite omap_app, app_nil_r. Qed.

(** One round of [parsePage] on a page that was fetched and parsed. *)
Lemma parsePage_round doc found i st :
  site w (requests st) url = Document doc ->
  listingYields doc found ->
  exists st',
    requests st' = S (requests st) /\
    sleeps (trace st') = sleeps (trace st) ++ [5] /\
    forall fuel,
      parsePage_loop w (S fuel) url i st =
        if found =? 0 then parsePage_loop w fuel url (wrap (i + 1)) st'
        else Some (Returned found st').
Proof.
  intros Hsite Hdoc.
  set (st1 := {| movies := movies st;
                 trace := trace (record (EvPrint (if i =? 0 then MsgFetchPage url
                                            else MsgTryFetchPage (wrap (i + 1)) url))
                            (record (EvPrint MsgNewline) st)) ++ [EvGet url];
                 requests := S (requests st) |}).
  destruct (Hdoc st1) as (st2 & Hrun & Hreq & Hsl).
  exists (record (EvSleep 5)
            (record (EvPrint (if found =? 0 then MsgParsedRetry found
                              else MsgParsedSleep found)) st2)).
  split; [cbn [requests record]; by rewrite Hreq|]. split.
  - rewrite sleeps_record_sleep, sleeps_record_print, Hsl.
    unfold st1. cbn [trace]. by rewrite sleeps_get, !sleeps_record_print.
  - intros fuel. cbn [parsePage_loop].
    unfold bind, say, emit, get, sleep, ret. cbn [requests movies record].
    rewrite Hsite. fold st1. rewrite Hrun.
    reflexivity.
Qed.

(** One round of [parsePage] that ends in a transport or parse error. *)
Lemma parsePage_error i st :
  site w (requests st) url = FetchError \/ site w (requests st) url = ParseError ->
  exists st',
    requests st' = S (requests st) /\
    sleeps (trace st') = sleeps (trace st) /\
    forall fuel, parsePage_loop w (S fuel) url i st = Some (Returned 0 st').
Proof.
  intros [Hsite|Hsite].
  - eexists. split; [|split]; [| |intros fuel; cbn [parsePage_loop];
      unfold bind, say, emit, get, ret; cbn [requests record];
      rewrite Hsite; reflexivity].
    + reflexivity.
    + rewrite sleeps_record_print. cbn [trace].
      by rewrite sleeps_get, !sleeps_record_print.
  - eexists. split; [|split]; [| |intros fuel; cbn [parsePage_loop];
      unfold bind, say, emit, get, ret; cbn [requests record];
      rewrite Hsite; reflexivity].
    + reflexivity.
    + rewrite sleeps_record_print. cbn [trace].
      by rewrite sleeps_get, !sleeps_record_print.
Qed.

(** [n] rounds on empty pages: the loop is where it was, [n] requests
    and [n] sleeps later. *)
Lemma parsePage_empties n :
  forall i st,
    emptyAttempts w url st n (fun doc => listingYields doc 0) ->
    exists i' st',
      requests st' = (requests st + n)%nat /\
      sleeps (trace st') = sleeps (trace st) ++ replicate n 5 /\
      forall fuel,
        parsePage_loop w (n + fuel) url i st = parsePage_loop w fuel url i' st'.
Proof.
  induction n as [|n IH]; intros i st Hempty.
  - exists i, st. rewrite Nat.add_0_r, app_nil_r. done.
  - destruct (Hempty 0%nat ltac:(lia)) as (doc & Hsite & Hdoc).
    rewrite Nat.add_0_r in Hsite.
    destruct (parsePage_round doc 0 i st Hsite Hdoc) as (st1 & Hreq & Hsl & Hstep).
    destruct (IH (wrap (i + 1)) st1) as (i' & st' & Hreq' & Hsl' & Hrun).
    { intros k Hk. destruct (Hempty (S k) ltac:(lia)) as (d & Hd & He).
      exists d. split; [|done]. rewrite Hreq. by rewrite <- Hd, Nat.add_succ_comm. }
    exists i', st'. split; [rewrite Hreq', Hreq; lia|]. split.
    + rewrite Hsl', Hsl, <- app_assoc. done.
    + intros fuel. rewrite <- Hrun. exact (Hstep (n + fuel)%nat).
Qed.

End Retry.

Section Probe.
Variables (w : World) (url : string).

(** One round of [parseFirstPage] on a page that was fetched and
    parsed. *)
Lemma parseFirstPage_round doc totalMovies pageSize i st :
  site w (requests st) url = Document doc ->
  pagingYields doc (totalMovies, pageSize) ->
  exists st',
    requests st' = S (requests st) /\
    sleeps (trace st') = sleeps (trace st) /\
    forall fuel,
      parseFirstPage_loop w (S fuel) url i st =
        if totalMovies =? 0 then parseFirstPage_loop w fuel url (wrap (i + 1)) st'
        else Some (Returned (totalMovies, pageSize) st').
Proof.
  intros Hsite Hdoc.
  set (st1 := {| movies := movies st;
                 trace := trace (record (EvPrint (if i =? 0 then MsgFetchFirstPage url
                                            else MsgTryFetchFirstPage (wrap (i + 1)) url))
                            st) ++ [EvGet url];
                 requests := S (requests st) |}).
  destruct (Hdoc st1) as (st2 & Hrun & Hreq & Hsl).
  exists st2. split; [done|]. split.
  - rewrite Hsl. unfold st1. cbn [trace]. by rewrite sleeps_get, sleeps_record_print.
  - intros fuel. cbn [parseFirstPage_loop].
    unfold bind, say, emit, get, ret. cbn [requests movies record].
    rewrite Hsite. fold st1. rewrite Hrun.
    reflexivity.
Qed.

Lemma parseFirstPage_error i st :
  site w (requests st) url = FetchError \/ site w (requests st) url = ParseError ->
  exists st',
    requests st' = S (requests st) /\
    sleeps (trace st') = sleeps (trace st) /\
    forall fuel, parseFirstPage_loop w (S fuel) url i st = Some (Returned (0, 0) st').
Proof.
  intros [Hsite|Hsite].
  - eexists. split; [|split]; [| |intros fuel; cbn [parseFirstPage_loop];
      unfold bind, say, emit, get, ret; cbn [requests record];
      rewrite Hsite; reflexivity].
    + reflexivity.
    + rewrite sleeps_record_print. cbn [trace].
      by rewrite sleeps_get, sleeps_record_print.
  - eexists. split; [|split]; [| |intros fuel; cbn [parseFirstPage_loop];
      unfold bind, say, emit, get, ret; cbn [requests record];
      rewrite Hsite; reflexivity].
    + reflexivity.
    + rewrite sleeps_record_print. cbn [trace].
      by rewrite sleeps_get, sleeps_record_print.
Qed.

Lemma parseFirstPage_empties n :
  forall i st,
    emptyAttempts w url st n (fun doc => exists pageSize, pagingYields doc (0, pageSize)) ->
    exists i' st',
      requests st' = (requests st + n)%nat /\
      sleeps (trace st') = sleeps (trace st) /\
      forall fuel,
        parseFirstPage_loop w (n + fuel) url i st =
          parseFirstPage_loop w fuel url i' st'.
Proof.
  induction n as [|n IH]; intros i st Hempty.
  - exists i, st. rewrite Nat.add_0_r. done.
  - destruct (Hempty 0%nat ltac:(lia)) as (doc & Hsite & pageSize & Hdoc).
    rewrite Nat.add_0_r in Hsite.
    destruct (parseFirstPage_round doc 0 pageSize i st Hsite Hdoc)
      as (st1 & Hreq & Hsl & Hstep).
    destruct (IH (wrap (i + 1)) st1) as (i' & st' & Hreq' & Hsl' & Hrun).
    { intros k Hk. destruct (Hempty (S k) ltac:(lia)) as (d & Hd & He).
      exists d. split; [|done]. rewrite Hreq. by rewrite <- Hd, Nat.add_succ_comm. }
    exists i', st'. split; [rewrite Hreq', Hreq; lia|]. split.
    + by rewrite Hsl', Hsl.
    + intros fuel. rewrite <- Hrun. exact (Hstep (n + fuel)%nat).
Qed.

End Probe.

(** ** The extractors *)

Section Extractors.

(** Induction on a document: a property holds of a node when it holds of
    its children. *)
Lemma Node_forall_ind (P : Node -> Prop) :
  (forall ty data attr children,
     Forall P children -> P (mkNode ty data attr children)) ->
  forall n, P n.
Proof.
  intros H. fix IH 1. intros [ty data attr children]. apply H.
  induction children as [|c cs IHcs]; constructor; [apply IH | exact IHcs].
Qed.

Lemma extracts_bind {A B} (m : M A) (k : A -> M B) a b :
  extracts m a -> extracts (k a) b -> extracts (bind m k) b.
Proof.
  intros Hm Hk st. destruct (Hm st) as (st1 & Hrun & Hr & Hs).
  destruct (Hk st1) as (st2 & Hrun2 & Hr2 & Hs2).
  exists st2. unfold bind. rewrite Hrun. split; [done|]. split; congruence.
Qed.

(** What an extractor returns does not depend on the state it is run
    from: a document that yields a value once yields it on every attempt. *)
Lemma findMovies_pure : forall n st v st',
  findMovies n st = Returned v st' -> listingYields n v.
Proof.
  induction n as [ty data attr children IH] using Node_forall_ind.
  intros st v st' Hrun. unfold listingYields.
  cbn [findMovies] in *.
  destruct (isElement _ _ && isClassName _ _).
  - intros st2. unfold processMovies in *.
    rewrite (processMovies_loop_merge _ _ _ _ _ Hrun st2).
    eexists. split; [done|]. split; reflexivity.
  - revert st v st' Hrun.
    induction IH as [|c cs Hc _ IHcs]; intros st v st' Hrun.
    + injection Hrun as <- <-. intros st2. by exists st2.
    + unfold bind in Hrun at 1.
      destruct (findMovies c st) as [r st1|] eqn:Ec; [|done].
      apply (extracts_bind _ _ r); [by apply (Hc st r st1)|].
      destruct (r =? 0); [by apply (IHcs st1 v st')|].
      injection Hrun as <- <-. intros st2. by exists st2.
Qed.

Lemma inspectPaging_pure pages st r st' :
  inspectPaging pages st = Returned r st' -> extracts (inspectPaging pages) r.
Proof.
  unfold inspectPaging, bind, liftR, say, emit, ret.
  destruct (at_ _ 0) as [p0|]; [|done].
  destruct (at_ _ 0) as [r0|]; [|done].
  destruct (GoStrconv.Atoi r0).
  2,3: intros [= <- <-] st2; eexists; split; [reflexivity|]; split;
       [reflexivity | apply sleeps_record_print].
  destruct (at_ _ 1) as [r1|]; [|done].
  destruct (GoStrconv.Atoi r1).
  2,3: intros [= <- <-] st2; eexists; split; [reflexivity|]; split;
       [reflexivity | apply sleeps_record_print].
  destruct (at_ _ 1) as [t|]; [|done].
  destruct (GoStrconv.Atoi t).
  2,3: intros [= <- <-] st2; eexists; split; [reflexivity|]; split;
       [reflexivity | apply sleeps_record_print].
  intros [= <- <-] st2. by exists st2.
Qed.

Lemma findPagingHeader_pure : forall n st r st',
  findPagingHeader n st = Returned r st' -> pagingYields n r.
Proof.
  induction n as [ty data attr children IH] using Node_forall_ind.
  intros st r st' Hrun. unfold pagingYields.
  cbn [findPagingHeader] in *.
  destruct (isElement _ _ && isClassName _ _).
  - destruct children as [|firstChild ?]; [done|].
    by apply (inspectPaging_pure _ st r st').
  - revert st r st' Hrun.
    induction IH as [|c cs Hc _ IHcs]; intros st r st' Hrun.
    + injection Hrun as <- <-. intros st2. by exists st2.
    + unfold bind in Hrun at 1.
      destruct (findPagingHeader c st) as [r1 st1|] eqn:Ec; [|done].
      apply (extracts_bind _ _ r1); [by apply (Hc st r1 st1)|].
      destruct (fst r1 =? 0); [by apply (IHcs st1 r st')|].
      injection Hrun as <- <-. intros st2. by exists st2.
Qed.

End Extractors.

Lemma emptyDoc_listing : listingYields emptyDoc 0.
Proof. by apply (findMovies_pure emptyDoc start 0 start). Qed.

Lemma emptyDoc_paging : pagingYields emptyDoc (0, 0).
Proof. by apply (findPagingHeader_pure emptyDoc start (0, 0) start). Qed.

Lemma listingDoc_listing : listingYields listingDoc 2.
Proof. intros st. eexists. split; [reflexivity|]. split; reflexivity. Qed.

Lemma pagingDoc_paging : pagingYields (pagingDoc "1—200 из 237") (237, 200).
Proof.
  by apply (findPagingHeader_pure (pagingDoc "1—200 из 237") start (237, 200) start).
Qed.

(** C1, as the code has it.  In both loops a page that was fetched and
    parsed but yields zero sends the loop round again, whatever the number
    [n] of such attempts already made: after [n] of them the loop is still
    running, and it returns the first non-zero result; the listing loop
    sleeps 5 seconds after every attempt.  A transport error or a parse
    error is not retried: it ends the loop at once and the zero result is
    what the caller gets. *)
Theorem retry_until_nonzero_or_error (w : World) (url : string) (st : State)
    (n extra : nat) :
  (emptyAttempts w url st n (fun doc => listingYields doc 0) ->
   parsePage w n url st = None /\
   (forall doc found,
      site w (requests st + n) url = Document doc ->
      listingYields doc found -> found <> 0 ->
      exists st',
        parsePage w (S n + extra) url st = Some (Returned found st') /\
        requests st' = (requests st + S n)%nat /\
        sleeps (trace st') = sleeps (trace st) ++ replicate (S n) 5) /\
   (site w (requests st + n) url = FetchError \/
    site w (requests st + n) url = ParseError ->
    exists st',
      parsePage w (S n + extra) url st = Some (Returned 0 st') /\
      requests st' = (requests st + S n)%nat /\
      sleeps (trace st') = sleeps (trace st) ++ replicate n 5)) /\
  (emptyAttempts w url st n (fun doc => exists pageSize, pagingYields doc (0, pageSize)) ->
   parseFirstPage w n url st = None /\
   (forall doc totalMovies pageSize,
      site w (requests st + n) url = Document doc ->
      pagingYields doc (totalMovies, pageSize) -> totalMovies <> 0 ->
      exists st',
        parseFirstPage w (S n + extra) url st =
          Some (Returned (totalMovies, pageSize) st') /\
        requests st' = (requests st + S n)%nat) /\
   (site w (requests st + n) url = FetchError \/
    site w (requests st + n) url = ParseError ->
    exists st',
      parseFirstPage w (S n + extra) url st = Some (Returned (0, 0) st') /\
      requests st' = (requests st + S n)%nat)).
Proof.
  split; intros Hempty.
  - destruct (parsePage_empties w url n 0 st Hempty) as (i' & st1 & Hreq & Hsl & Hrun).
    split; [|split].
    + unfold parsePage.
      specialize (Hrun 0%nat). rewrite Nat.add_0_r in Hrun. by rewrite Hrun.
    + intros doc found Hsite Hdoc Hfound. rewrite <- Hreq in Hsite.
      destruct (parsePage_round w url doc found i' st1 Hsite Hdoc)
        as (st' & Hreq' & Hsl' & Hstep).
      exists st'. split; [|split].
      * unfold parsePage.
        replace (S n + extra)%nat with (n + S extra)%nat by lia.
        rewrite Hrun, Hstep.
        by destruct (Z.eqb_spec found 0).
      * rewrite Hreq', Hreq. lia.
      * rewrite Hsl', Hsl, <- app_assoc. f_equal.
        change [5] with (replicate 1 5). rewrite <- replicate_add.
        f_equal. lia.
    + intros Herr. rewrite <- Hreq in Herr.
      destruct (parsePage_error w url i' st1 Herr) as (st' & Hreq' & Hsl' & Hstep).
      exists st'. split; [|split].
      * unfold parsePage.
        replace (S n + extra)%nat with (n + S extra)%nat by lia.
        by rewrite Hrun, Hstep.
      * rewrite Hreq', Hreq. lia.
      * by rewrite Hsl', Hsl.
  - destruct (parseFirstPage_empties w url n 0 st Hempty)
      as (i' & st1 & Hreq & Hsl & Hrun).
    split; [|split].
    + unfold parseFirstPage.
      specialize (Hrun 0%nat). rewrite Nat.add_0_r in Hrun. by rewrite Hrun.
    + intros doc totalMovies pageSize Hsite Hdoc Hfound. rewrite <- Hreq in Hsite.
      destruct (parseFirstPage_round w url doc totalMovies pageSize i' st1 Hsite Hdoc)
        as (st' & Hreq' & Hsl' & Hstep).
      exists st'. split.
      * unfold parseFirstPage.
        replace (S n + extra)%nat with (n + S extra)%nat by lia.
        rewrite Hrun, Hstep.
        by destruct (Z.eqb_spec totalMovies 0).
      * rewrite Hreq', Hreq. lia.
    + intros Herr. rewrite <- Hreq in Herr.
      destruct (parseFirstPage_error w url i' st1 Herr) as (st' & Hreq' & Hsl' & Hstep).
      exists st'. split.
      * unfold parseFirstPage.
        replace (S n + extra)%nat with (n + S extra)%nat by lia.
        by rewrite Hrun, Hstep.
      * rewrite Hreq', Hreq. lia.
Qed.

Lemma slowWorld_empty url :
  emptyAttempts slowWorld url start 2 (fun doc => listingYields doc 0).
Proof.
  intros k Hk. exists emptyDoc. split; [|apply emptyDoc_listing].
  destruct k as [|[|k]]; [reflexivity | reflexivity | lia].
Qed.

Lemma retry_until_nonzero_or_error_witness :
  exists st',
    parsePage slowWorld 3 "https://www.kinopoisk.ru/user/1/votes/list/vs/novote/page/2/"
      start = Some (Returned 2 st') /\
    requests st' = 3%nat /\
    sleeps (trace st') = [5; 5; 5].
Proof.
  destruct (retry_until_nonzero_or_error slowWorld
              "https://www.kinopoisk.ru/user/1/votes/list/vs/novote/page/2/"
              start 2 0) as [Hlisting _].
  destruct (Hlisting (slowWorld_empty _)) as (_ & Hhit & _).
  apply (Hhit listingDoc 2); [reflexivity | apply listingDoc_listing | lia].
Defined.

(** C1, as the claim has it, fails when the transport fails: the first
    attempt of either loop ends the loop, zero is returned to the caller,
    and there was one request and no sleep. *)
Lemma transport_error_is_returned :
  (exists st',
     parsePage deafWorld 5 "https://www.kinopoisk.ru/user/1/votes/list/vs/novote/page/2/"
       start = Some (Returned 0 st') /\
     requests st' = 1%nat /\ sleeps (trace st') = []) /\
  (exists st',
     parseFirstPage deafWorld 5
       "https://www.kinopoisk.ru/user/1/votes/list/vs/novote/perpage/200/"
       start = Some (Returned (0, 0) st') /\
     requests st' = 1%nat /\ sleeps (trace st') = []).
Proof. split; eexists; (split; [reflexivity|]); split; reflexivity. Qed.

(** C4, as the code has it.  When the first two attempts give a page
    that yields zero and the third a page that yields a non-zero value,
    both loops return that value at the third attempt and not before; the
    listing loop has then slept 5 seconds three times, once after every
    attempt, the successful one included. *)
Theorem third_attempt_returns (w : World) (url : string) (st : State)
    (d1 d2 d3 : Node) (extra : nat) :
  site w (requests st) url = Document d1 ->
  site w (S (requests st)) url = Document d2 ->
  site w (S (S (requests st))) url = Document d3 ->
  (forall found,
     listingYields d1 0 -> listingYields d2 0 -> listingYields d3 found ->
     found <> 0 ->
     parsePage w 2 url st = None /\
     exists st',
       parsePage w (3 + extra) url st = Some (Returned found st') /\
       requests st' = (requests st + 3)%nat /\
       sleeps (trace st') = sleeps (trace st) ++ [5; 5; 5]) /\
  (forall totalMovies pageSize p1 p2,
     pagingYields d1 (0, p1) -> pagingYields d2 (0, p2) ->
     pagingYields d3 (totalMovies, pageSize) -> totalMovies <> 0 ->
     parseFirstPage w 2 url st = None /\
     exists st',
       parseFirstPage w (3 + extra) url st =
         Some (Returned (totalMovies, pageSize) st') /\
       requests st' = (requests st + 3)%nat).
Proof.
  intros H1 H2 H3. split.
  - intros found Y1 Y2 Y3 Hfound. unfold parsePage.
    destruct (parsePage_round w url d1 0 0 st H1 Y1) as (st1 & Hr1 & Hs1 & Hstep1).
    rewrite <- Hr1 in H2.
    destruct (parsePage_round w url d2 0 (wrap (0 + 1)) st1 H2 Y2)
      as (st2 & Hr2 & Hs2 & Hstep2).
    rewrite <- Hr1, <- Hr2 in H3.
    destruct (parsePage_round w url d3 found (wrap (wrap (0 + 1) + 1)) st2 H3 Y3)
      as (st3 & Hr3 & Hs3 & Hstep3).
    split.
    + rewrite Hstep1. cbn [Z.eqb]. rewrite Hstep2. reflexivity.
    + exists st3. split; [|split].
      * change (3 + extra)%nat with (S (S (S extra))).
        rewrite Hstep1. cbn [Z.eqb]. rewrite Hstep2. cbn [Z.eqb]. rewrite Hstep3.
        by destruct (Z.eqb_spec found 0).
      * rewrite Hr3, Hr2, Hr1. lia.
      * rewrite Hs3, Hs2, Hs1, <- !app_assoc. reflexivity.
  - intros totalMovies pageSize p1 p2 Y1 Y2 Y3 Hfound. unfold parseFirstPage.
    destruct (parseFirstPage_round w url d1 0 p1 0 st H1 Y1)
      as (st1 & Hr1 & Hs1 & Hstep1).
    rewrite <- Hr1 in H2.
    destruct (parseFirstPage_round w url d2 0 p2 (wrap (0 + 1)) st1 H2 Y2)
      as (st2 & Hr2 & Hs2 & Hstep2).
    rewrite <- Hr1, <- Hr2 in H3.
    destruct (parseFirstPage_round w url d3 totalMovies pageSize
                (wrap (wrap (0 + 1) + 1)) st2 H3 Y3)
      as (st3 & Hr3 & Hs3 & Hstep3).
    split.
    + rewrite Hstep1. cbn [Z.eqb]. rewrite Hstep2. reflexivity.
    + exists st3. split.
      * change (3 + extra)%nat with (S (S (S extra))).
        rewrite Hstep1. cbn [Z.eqb]. rewrite Hstep2. cbn [Z.eqb]. rewrite Hstep3.
        by destruct (Z.eqb_spec totalMovies 0).
      * rewrite Hr3, Hr2, Hr1. lia.
Qed.

Lemma third_attempt_returns_witness :
  parsePage slowWorld 2 "https://www.kinopoisk.ru/user/1/votes/list/vs/novote/page/2/"
    start = None /\
  exists st',
    parsePage slowWorld (3 + 0)
      "https://www.kinopoisk.ru/user/1/votes/list/vs/novote/page/2/" start =
      Some (Returned 2 st') /\
    requests st' = (requests start + 3)%nat /\
    sleeps (trace st') = sleeps (trace start) ++ [5; 5; 5].
Proof.
  apply (proj1 (third_attempt_returns slowWorld
           "https://www.kinopoisk.ru/user/1/votes/list/vs/novote/page/2/"
           start emptyDoc emptyDoc listingDoc 0 eq_refl eq_refl eq_refl) 2).
  - apply emptyDoc_listing.
  - apply emptyDoc_listing.
  - apply listingDoc_listing.
  - lia.
Defined.

(** C4, as the claim has it, fails on the number of delays: with two
    empty pages and then the listing, [parsePage] has slept three times
    when it returns, and [parseFirstPage] not at all. *)
Lemma third_attempt_sleeps_not_two :
  (exists st',
     parsePage slowWorld 3 "https://www.kinopoisk.ru/user/1/votes/list/vs/novote/page/2/"
       start = Some (Returned 2 st') /\
     sleeps (trace st') = [5; 5; 5] /\
     length (sleeps (trace st')) <> 2%nat) /\
  (exists st',
     parseFirstPage slowProbeWorld 3
       "https://www.kinopoisk.ru/user/1/votes/list/vs/novote/perpage/200/"
       start = Some (Returned (237, 200) st') /\
     sleeps (trace st') = [] /\
     length (sleeps (trace st')) <> 2%nat).
Proof.
  split; eexists; (split; [reflexivity|]); split; [reflexivity|discriminate| reflexivity|discriminate].
Qed.

Lemma deafWorld_rows :
  Forall2 rowOf [["535341"; "1+1 (2011)"]; ["326"; "The Shawshank Redemption (1994)"]]
          [(535341, "1+1 (2011)"); (326, "The Shawshank Redemption (1994)")].
Proof.
  repeat constructor; eexists _, []; split; reflexivity.
Qed.

Lemma replay_hard_stop_and_best_effort_witness :
  exists st1,
    importMovies_loop deafWorld
      ([["535341"; "1+1 (2011)"]; ["326"; "The Shawshank Redemption (1994)"]] ++
       ["tt0111161"; "imdb row"] :: [["42"; "never sent"]]) start =
      Returned tt (record (EvPrint MsgConvertMovieId) st1) /\
    posts (trace st1) = [535341; 326] /\
    (reports (trace st1)).*1 = ["1+1 (2011)"; "The Shawshank Redemption (1994)"].
Proof.
  destruct (replay_hard_stop_and_best_effort deafWorld _ _
              "tt0111161" "imdb row" [] [["42"; "never sent"]] start
              deafWorld_rows) as [(st1 & _ & Hrun & Hposts & Hreports & _) _].
  - intros n. discriminate.
  - exists st1. split; [exact Hrun|]. split; [exact Hposts | exact Hreports].
Defined.

(** ** The record file *)

Section Lines.
Import GoStrings GoCsv.

Lemma app_nil_r_s s : s +:+ "" = s.
Proof. induction s as [|c s IH]; [done|]. by rewrite app_cons_s, IH. Qed.

Lemma ReadSlice_line body rest :
  CountByte LF body = 0%nat ->
  ReadSlice (body +:+ String LF rest) = (body +:+ String LF "", rest, true).
Proof.
  induction body as [|c body IH]; intros Hfree; rewrite ?app_cons_s, ?app_nil_s.
  - reflexivity.
  - simpl in Hfree. destruct (decide (c = LF)) as [|Hc]; [done|].
    simpl. rewrite decide_False by done. by rewrite (IH Hfree).
Qed.

Lemma CountByte_split c s :
  (0 < CountByte c s)%nat ->
  exists body rest, s = body +:+ String c rest /\ CountByte c body = 0%nat.
Proof.
  induction s as [|x s IH]; simpl; [lia|].
  destruct (decide (x = c)) as [->|Hx]; intros Hpos.
  - by exists "", s.
  - destruct (IH Hpos) as (body & rest & -> & Hfree).
    exists (String x body), rest. split; [done|].
    simpl. by rewrite decide_False.
Qed.

Lemma crlfFree_app_l a b : crlfFree (a +:+ b) = true -> crlfFree a = true.
Proof.
  induction a as [|c a IH]; [done|]. rewrite app_cons_s. simpl.
  intros [H1 H2]%andb_prop. rewrite (IH H2), andb_true_r.
  destruct (bool_decide (c = CR)); [|done]. simpl in *.
  destruct a as [|d a]; [done|]. by rewrite app_cons_s in H1.
Qed.

Lemma crlfFree_app_r a b : crlfFree (a +:+ b) = true -> crlfFree b = true.
Proof.
  induction a as [|c a IH]; [done|]. rewrite app_cons_s. simpl.
  intros [_ H2]%andb_prop. auto.
Qed.

(** Two strings without [\r\n] make one unless the [\r] ends the first
    and the [\n] starts the second. *)
Lemma crlfFree_app a b :
  crlfFree a = true -> crlfFree b = true ->
  lastByte a <> Some CR \/ startsWith LF b = false ->
  crlfFree (a +:+ b) = true.
Proof.
  induction a as [|c a IH]; intros Ha Hb Hjoin; [done|].
  rewrite app_cons_s. simpl in *. apply andb_prop in Ha as [H1 H2].
  apply andb_true_intro. split.
  - destruct a as [|d a]; [|by rewrite app_cons_s].
    rewrite app_nil_s. destruct Hjoin as [Hjoin | ->]; [|by rewrite andb_false_r].
    rewrite bool_decide_eq_false_2; [done|]. congruence.
  - apply IH; [done|done|]. destruct Hjoin as [Hjoin|]; [left|by right].
    by destruct a.
Qed.

Lemma normalizeCRLF_id line : crlfFree line = true -> normalizeCRLF line = line.
Proof.
  induction line as [|c line IH]; [done|]. simpl.
  intros [H1 H2]%andb_prop. rewrite (IH H2).
  destruct (bool_decide (c = CR)); [|done]. simpl in *.
  case_bool_decide as Hl; [|done]. by subst line.
Qed.

Lemma isLine_app body : CountByte LF body = 0%nat -> isLine (body +:+ String LF "") = true.
Proof.
  induction body as [|c body IH]; rewrite ?app_cons_s, ?app_nil_s; simpl.
  - done.
  - destruct (decide (c = LF)); [done|]. auto.
Qed.

Lemma isLine_length line : isLine line = true -> (0 < String.length line)%nat.
Proof. destruct line; [done|]. simpl. lia. Qed.

Lemma isLine_lastByte line : isLine line = true -> lastByte line = Some LF.
Proof.
  induction line as [|c line IH]; [done|]. simpl.
  destruct (decide (c = LF)) as [->|Hc].
  - by intros ->%bool_decide_eq_true.
  - intros H. rewrite <- (IH H). by destruct line.
Qed.

Lemma isLine_lengthNL line : isLine line = true -> lengthNL line = 1%nat.
Proof.
  intros H. unfold lengthNL. by rewrite (isLine_lastByte _ H).
Qed.

(** A line that starts with a prefix free of line feeds goes on after
    it. *)
Lemma isLine_prefix p : forall line rest u,
  isLine line = true -> CountByte LF p = 0%nat ->
  line +:+ rest = p +:+ u ->
  exists line', line = p +:+ line' /\ line' +:+ rest = u /\ isLine line' = true.
Proof.
  induction p as [|d p IH]; intros line rest u Hline Hfree Heq.
  - exists line. by rewrite app_nil_s in *.
  - destruct line as [|e line]; [done|].
    rewrite !app_cons_s in Heq. injection Heq as -> Heq.
    simpl in Hfree, Hline. destruct (decide (d = LF)); [done|].
    destruct (IH line rest u Hline Hfree Heq) as (line' & -> & Hu & Hl').
    by exists line'.
Qed.

Lemma isLine_LF line : isLine line = true -> startsWith LF line = true -> line = String LF "".
Proof.
  destruct line as [|c line]; [done|]. simpl.
  intros H ->%bool_decide_eq_true. rewrite decide_True in H by done.
  by apply bool_decide_eq_true in H as ->.
Qed.

Lemma isLine_tail c line :
  isLine (String c line) = true -> c <> LF -> isLine line = true.
Proof. simpl. intros H Hc. by rewrite decide_False in H. Qed.

(** On an input that has a line feed and no [\r\n], [readLine] cuts the
    first line off and changes nothing. *)
Lemma readLine_ok s :
  (0 < CountByte LF s)%nat -> crlfFree s = true ->
  exists line rest,
    readLine s = (line, false, rest) /\ line +:+ rest = s /\ isLine line = true.
Proof.
  intros Hpos Hfree.
  destruct (CountByte_split _ _ Hpos) as (body & rest & -> & Hbody).
  exists (body +:+ String LF ""), rest.
  assert (Heq : (body +:+ String LF "") +:+ rest = body +:+ String LF rest)
    by (by rewrite app_assoc_s).
  split; [|split; [done | by apply isLine_app]].
  unfold readLine. rewrite (ReadSlice_line _ _ Hbody).
  rewrite andb_false_r. cbn [negb].
  rewrite normalizeCRLF_id; [done|].
  rewrite <- Heq in Hfree. by apply crlfFree_app_l in Hfree.
Qed.

End Lines.

Section QuotedFields.
Import GoStrings GoCsv.

Lemma IndexByte_Some c s : forall i,
  IndexByte s c = Some i ->
  s = sliceTo i s +:+ String c (sliceFrom (i + 1) s) /\
  CountByte c (sliceTo i s) = 0%nat.
Proof.
  unfold IndexByte. induction s as [|x s IH]; intros i; [done|].
  simpl. destruct (decide (x = c)) as [->|Hx].
  - intros [= <-]. done.
  - destruct (Index s _) as [k|]; [|done]. intros [= <-].
    destruct (IH k eq_refl) as [Hs Hfree]. simpl.
    rewrite app_cons_s, <- Hs, decide_False by done. done.
Qed.

Lemma IndexByte_app c p u :
  CountByte c p = 0%nat -> IndexByte (p +:+ String c u) c = Some (String.length p).
Proof.
  intros Hfree. unfold IndexByte. rewrite (Index_free _ _ _ _ Hfree).
  simpl. rewrite decide_True by done. simpl. by rewrite Nat.add_0_r.
Qed.

Lemma sliceFrom_app_1 p c u :
  sliceFrom (String.length p + 1) (p +:+ String c u) = u.
Proof. induction p as [|d p IH]; rewrite ?app_cons_s, ?app_nil_s; simpl; auto. Qed.

Lemma isLine_drop p : forall l,
  isLine (p +:+ l) = true -> l <> "" -> isLine l = true.
Proof.
  induction p as [|d p IH]; intros l H Hl; [done|].
  rewrite app_cons_s in H. simpl in H.
  destruct (decide (d = LF)); [|by apply IH].
  apply bool_decide_eq_true in H. destruct p, l; done.
Qed.

Lemma crlfFree_tail c s : crlfFree (String c s) = true -> crlfFree s = true.
Proof. simpl. by intros [_ ?]%andb_prop. Qed.

(** A stretch without quotes at the head of an escaped field is a
    stretch of the field itself. *)
Lemma escape_prefix p : forall x u tail,
  CountByte QUOTE p = 0%nat ->
  p +:+ u = escape x +:+ String QUOTE tail ->
  exists x', x = p +:+ x' /\ u = escape x' +:+ String QUOTE tail.
Proof.
  induction p as [|d p IH]; intros x u tail Hp Heq.
  - by exists x.
  - simpl in Hp. destruct (decide (d = QUOTE)) as [|Hd]; [done|].
    rewrite app_cons_s in Heq.
    destruct x as [|c x]; simpl in Heq.
    + rewrite app_nil_s in Heq. congruence.
    + destruct (decide (c = QUOTE)); rewrite !app_cons_s in Heq; [congruence|].
      injection Heq as -> Heq.
      destruct (IH x u tail Hp Heq) as (x' & -> & Hu).
      by exists x'.
Qed.

(** The quoted-field loop reads back what [escape] wrote, up to the
    closing quote, across the lines the field spans. *)
Lemma quotedField_ok fuel : forall x field line rest sep tail,
  (String.length x < fuel)%nat ->
  isLine line = true ->
  crlfFree (line +:+ rest) = true ->
  line +:+ rest = escape x +:+ String QUOTE (String sep tail) ->
  (0 < CountByte LF (String sep tail))%nat ->
  (sep = Comma ->
   exists line' rest',
     quotedField fuel field line rest = QuotedComma (field +:+ x) line' rest' /\
     line' +:+ rest' = tail /\ isLine line' = true) /\
  (sep = LF -> quotedField fuel field line rest = QuotedEnd (field +:+ x) tail).
Proof.
  induction fuel as [|fuel IH]; intros x field line rest sep tail Hfuel Hline Hfree Heq Htail;
    [lia|].
  cbn [quotedField]. destruct (IndexByte line QUOTE) as [i|] eqn:E.
  - destruct (IndexByte_Some _ _ _ E) as [Hsplit Hp].
    set (p := sliceTo i line) in *. set (l' := sliceFrom (i + 1) line) in *.
    assert (Hl' : isLine l' = true).
    { apply (isLine_tail QUOTE); [|done].
      apply (isLine_drop p); [by rewrite <- Hsplit | done]. }
    rewrite Hsplit, app_assoc_s, app_cons_s in Heq, Hfree.
    destruct (escape_prefix p x _ _ Hp Heq) as (x' & -> & Hx').
    apply crlfFree_app_r, crlfFree_tail in Hfree.
    destruct l' as [|e l'']; [done|]. rewrite app_cons_s in Hx', Hfree.
    destruct x' as [|c x'']; simpl in Hx'.
    + rewrite app_nil_s in Hx'. injection Hx' as -> Hrest.
      rewrite app_nil_r_s. split; intros ->.
      * simpl. exists l'', rest. split; [done|]. split; [done|].
        by apply (isLine_tail Comma).
      * apply isLine_LF in Hl'; [|done]. injection Hl' as ->.
        rewrite app_nil_s in Hrest. subst rest. reflexivity.
    + destruct (decide (c = QUOTE)) as [->|Hc]; rewrite !app_cons_s in Hx'; [|congruence].
      injection Hx' as -> Hrest.
      cbn [startsWith]. rewrite bool_decide_eq_true_2 by done. cbn [sliceFrom].
      rewrite length_app_s in Hfuel. simpl in Hfuel.
      destruct (IH x'' (field +:+ p +:+ String QUOTE "") l'' rest sep tail)
        as [HC HL]; [lia | by apply (isLine_tail QUOTE) | by apply crlfFree_tail in Hfree
                     | done | done |].
      replace ((field +:+ p +:+ String QUOTE "") +:+ x'')
        with (field +:+ p +:+ String QUOTE x'') in HC, HL
        by (by rewrite !app_assoc_s).
      replace ((field +:+ p) +:+ String QUOTE "") with (field +:+ p +:+ String QUOTE "")
        by (by rewrite !app_assoc_s).
      replace ((field +:+ p +:+ String QUOTE x''))
        with (field +:+ (p +:+ String QUOTE x'')) in HC, HL by done.
      done.
  - apply Index_byte_none in E.
    destruct (escape_prefix line x _ _ E Heq) as (x' & -> & Hrest).
    rewrite (proj2 (Nat.ltb_lt _ _) (isLine_length _ Hline)).
    destruct (readLine_ok rest) as (line2 & rest2 & Hread & Hjoin & Hline2).
    { rewrite Hrest, CountByte_app.
      change (CountByte LF (String QUOTE (String sep tail)))
        with (CountByte LF (String sep tail)). lia. }
    { by apply crlfFree_app_r in Hfree. }
    rewrite Hread.
    rewrite length_app_s in Hfuel. pose proof (isLine_length _ Hline).
    destruct (IH x' (field +:+ line) line2 rest2 sep tail) as [HC HL];
      [lia | done | rewrite Hjoin; by apply crlfFree_app_r in Hfree
       | by rewrite Hjoin | done |].
    rewrite app_assoc_s in HC, HL. done.
Qed.

End QuotedFields.

Section ReadBack.
Import GoStrings GoCsv.

Lemma normalizeCRLF_cons c l :
  c <> CR -> normalizeCRLF (String c l) = String c (normalizeCRLF l).
Proof. intros Hc. simpl. by rewrite bool_decide_eq_false_2. Qed.

(** The reader changes a line at its end only. *)
Lemma normalizeCRLF_mid p : forall c l,
  c <> LF -> normalizeCRLF (p +:+ String c l) = p +:+ normalizeCRLF (String c l).
Proof.
  induction p as [|x p IH]; intros c l Hc; [done|].
  rewrite !app_cons_s. cbn [normalizeCRLF]. rewrite (IH c l Hc).
  rewrite (bool_decide_eq_false_2 (p +:+ String c l = String LF "")), andb_false_r; [done|].
  destruct p as [|y p]; rewrite ?app_cons_s, ?app_nil_s; [congruence|].
  destruct p; rewrite ?app_cons_s, ?app_nil_s; congruence.
Qed.

Lemma normalizeCRLF_plain p : forall l,
  CountByte CR p = 0%nat -> normalizeCRLF (p +:+ l) = p +:+ normalizeCRLF l.
Proof.
  induction p as [|x p IH]; intros l Hp; [done|].
  simpl in Hp. destruct (decide (x = CR)) as [|Hx]; [done|].
  rewrite !app_cons_s, normalizeCRLF_cons by done. by rewrite IH.
Qed.

Lemma normalizeCRLF_line l : isLine l = true -> isLine (normalizeCRLF l) = true.
Proof.
  induction l as [|c l IH]; [done|]. cbn [isLine normalizeCRLF].
  destruct (decide (c = LF)) as [->|Hc].
  - intros ->%bool_decide_eq_true. reflexivity.
  - intros Hl. destruct (bool_decide (c = CR) && bool_decide (l = String LF "")); [done|].
    cbn [isLine]. rewrite decide_False by done. auto.
Qed.

Lemma CountByte_normalizeCRLF c l :
  c <> CR -> CountByte c (normalizeCRLF l) = CountByte c l.
Proof.
  intros Hc. induction l as [|x l IH]; [done|]. cbn [normalizeCRLF].
  case_bool_decide as Hx; cbn [andb]; [|simpl; by rewrite IH].
  case_bool_decide as Hl; [|simpl; by rewrite IH].
  subst x l. simpl. by rewrite (decide_False (P := CR = c)) by congruence.
Qed.

Lemma isLine_body p : forall l,
  isLine (p +:+ l) = true -> l <> "" -> CountByte LF p = 0%nat.
Proof.
  induction p as [|y p IH]; intros l Hl Hne; [done|].
  rewrite app_cons_s in Hl. simpl in *. destruct (decide (y = LF)); [|eauto].
  apply bool_decide_eq_true in Hl. destruct p, l; done.
Qed.

(** On an input that has a line feed, [readLine] cuts the first line
    off and hands it over normalized. *)
Lemma readLine_line s :
  (0 < CountByte LF s)%nat ->
  exists raw rest,
    readLine s = (normalizeCRLF raw, false, rest) /\ raw +:+ rest = s /\
    isLine raw = true.
Proof.
  intros Hpos.
  destruct (CountByte_split _ _ Hpos) as (body & rest & -> & Hbody).
  exists (body +:+ String LF ""), rest.
  split; [|split; [by rewrite app_assoc_s | by apply isLine_app]].
  unfold readLine. rewrite (ReadSlice_line _ _ Hbody).
  by rewrite andb_false_r.
Qed.

Lemma readBack_step c x :
  startsWith LF x = false -> readBack (String c x) = String c (readBack x).
Proof.
  destruct x as [|d x]; [done|]. cbn [startsWith readBack].
  intros ->. by rewrite andb_false_r.
Qed.

Lemma readBack_cons c x : c <> CR -> readBack (String c x) = String c (readBack x).
Proof.
  intros Hc. destruct x as [|d x]; [done|]. cbn [readBack].
  by rewrite (bool_decide_eq_false_2 (c = CR)).
Qed.

(** A stretch of a line before its line feed is read back as it is. *)
Lemma readBack_plain p : forall x,
  CountByte LF p = 0%nat -> startsWith LF x = false ->
  readBack (p +:+ x) = p +:+ readBack x.
Proof.
  induction p as [|c p IH]; intros x Hp Hx; [done|].
  simpl in Hp. destruct (decide (c = LF)); [done|].
  rewrite !app_cons_s, readBack_step, IH; [done..|].
  destruct p as [|d p]; [done|]. rewrite app_cons_s. simpl in *.
  destruct (decide (d = LF)); [done|]. by rewrite bool_decide_eq_false_2.
Qed.

(** A whole line of a field is read back normalized. *)
Lemma readBack_line l : forall x,
  isLine l = true -> readBack (l +:+ x) = normalizeCRLF l +:+ readBack x.
Proof.
  induction l as [|c l IH]; intros x Hl; [done|].
  cbn [isLine] in Hl. destruct (decide (c = LF)) as [->|Hc].
  - apply bool_decide_eq_true in Hl as ->. rewrite app_cons_s, app_nil_s.
    by rewrite readBack_cons.
  - destruct (decide (c = CR /\ l = String LF "")) as [[-> ->]|Hno]; [reflexivity|].
    assert (Hn : normalizeCRLF (String c l) = String c (normalizeCRLF l)).
    { cbn [normalizeCRLF].
      destruct (bool_decide_reflect (c = CR)), (bool_decide_reflect (l = String LF ""));
        try done. by destruct Hno. }
    rewrite Hn, !app_cons_s, <- (IH x Hl).
    destruct (decide (c = CR)) as [->|Hcr]; [|by apply readBack_cons].
    apply readBack_step.
    destruct l as [|d l]; [done|]. rewrite app_cons_s. simpl.
    apply bool_decide_eq_false_2. intros ->.
    apply Hno. split; [done|]. by apply isLine_LF.
Qed.

Lemma readBack_unfold c d f :
  readBack (String c (String d f)) =
    if bool_decide (c = CR) && bool_decide (d = LF)
    then String LF (readBack f)
    else String c (readBack (String d f)).
Proof. reflexivity. Qed.

Lemma readBack_id f : crlfFree f = true -> readBack f = f.
Proof.
  induction f as [|c f IH]; [done|]. cbn [crlfFree].
  intros [H1 H2]%andb_prop. rewrite <- (IH H2) at 2.
  apply negb_true_iff, andb_false_iff in H1 as [H1|H1].
  - apply readBack_cons. by apply bool_decide_eq_false in H1.
  - by apply readBack_step.
Qed.

Lemma length_readBack f : (String.length (readBack f) <= String.length f)%nat.
Proof.
  assert (H : forall n f, (String.length f < n)%nat ->
                          (String.length (readBack f) <= String.length f)%nat).
  { clear f. induction n as [|n IH]; intros f Hn; [lia|].
    destruct f as [|c [|d f]]; [done|done|]. rewrite readBack_unfold.
    simpl in Hn. destruct (_ && _).
    - pose proof (IH f ltac:(lia)). simpl. lia.
    - pose proof (IH (String d f) ltac:(simpl; lia)) as Hd.
      change (String.length (String c (readBack (String d f))))
        with (S (String.length (readBack (String d f)))).
      simpl in *. lia. }
  apply (H (S (String.length f))). lia.
Qed.

(** A field with a [\r\n] in it is not read back as it was written. *)
Lemma readBack_shorter f :
  crlfFree f = false -> (String.length (readBack f) < String.length f)%nat.
Proof.
  induction f as [|c f IH]; [done|]. cbn [crlfFree].
  destruct f as [|d f]; [by rewrite andb_false_r|].
  rewrite readBack_unfold. cbn [startsWith].
  destruct (bool_decide (c = CR) && bool_decide (d = LF)).
  - intros _. pose proof (length_readBack f). simpl. lia.
  - intros H. specialize (IH H).
    change (String.length (String c (readBack (String d f))))
      with (S (String.length (readBack (String d f)))).
    simpl in *. lia.
Qed.

(** The quoted-field loop reads back what [escape] wrote, up to the
    closing quote, across the lines the field spans; [raw] is the line
    as the file has it. *)
Lemma quotedField_written fuel : forall x field raw rest sep tail,
  (String.length x < fuel)%nat ->
  isLine raw = true ->
  raw +:+ rest = escape x +:+ String QUOTE (String sep tail) ->
  (0 < CountByte LF (String sep tail))%nat ->
  (sep = Comma ->
   exists raw' rest',
     quotedField fuel field (normalizeCRLF raw) rest =
       QuotedComma (field +:+ readBack x) (normalizeCRLF raw') rest' /\
     raw' +:+ rest' = tail /\ isLine raw' = true) /\
  (sep = LF ->
   quotedField fuel field (normalizeCRLF raw) rest = QuotedEnd (field +:+ readBack x) tail).
Proof.
  induction fuel as [|fuel IH]; intros x field raw rest sep tail Hfuel Hline Heq Htail;
    [lia|].
  cbn [quotedField].
  destruct (Nat.eq_dec (CountByte QUOTE raw) 0%nat) as [Hnone|Hsome].
  - assert (E : IndexByte (normalizeCRLF raw) QUOTE = None).
    { apply Index_none. by rewrite CountByte_normalizeCRLF. }
    rewrite E.
    destruct (escape_prefix raw x _ _ Hnone Heq) as (x' & -> & Hrest).
    pose proof (normalizeCRLF_line _ Hline) as Hline'.
    rewrite (proj2 (Nat.ltb_lt _ _) (isLine_length _ Hline')).
    destruct (readLine_line rest) as (raw2 & rest2 & Hread & Hjoin & Hline2).
    { rewrite Hrest, CountByte_app.
      change (CountByte LF (String QUOTE (String sep tail)))
        with (CountByte LF (String sep tail)). lia. }
    rewrite Hread.
    rewrite length_app_s in Hfuel. pose proof (isLine_length _ Hline).
    destruct (IH x' (field +:+ normalizeCRLF raw) raw2 rest2 sep tail) as [HC HL];
      [lia | done | by rewrite Hjoin | done |].
    rewrite (readBack_line _ _ Hline), <- app_assoc_s. done.
  - destruct (CountByte_split QUOTE raw ltac:(lia)) as (p & l' & -> & Hp).
    assert (Hl' : isLine l' = true).
    { apply (isLine_tail QUOTE); [|done]. by apply (isLine_drop p). }
    rewrite normalizeCRLF_mid, normalizeCRLF_cons by done.
    rewrite (IndexByte_app _ _ _ Hp), sliceTo_app, sliceFrom_app_1.
    rewrite app_assoc_s, app_cons_s in Heq.
    destruct (escape_prefix p x _ _ Hp Heq) as (x' & -> & Hx').
    assert (Hp' : CountByte LF p = 0%nat) by (by apply (isLine_body p (String QUOTE l'))).
    destruct l' as [|e l'']; [done|]. rewrite app_cons_s in Hx'.
    destruct x' as [|c x'']; simpl in Hx'.
    + rewrite app_nil_s in Hx'. injection Hx' as -> Hrest.
      rewrite (readBack_plain p "" Hp' eq_refl). cbn [readBack]. rewrite !app_nil_r_s.
      split; intros ->.
      * rewrite normalizeCRLF_cons by done. simpl.
        exists l'', rest. split; [done|]. split; [done|].
        by apply (isLine_tail Comma).
      * apply isLine_LF in Hl'; [|done]. injection Hl' as ->.
        rewrite app_nil_s in Hrest. subst rest. reflexivity.
    + destruct (decide (c = QUOTE)) as [->|Hc]; rewrite !app_cons_s in Hx'; [|congruence].
      injection Hx' as -> Hrest.
      rewrite normalizeCRLF_cons by done.
      cbn [startsWith]. rewrite bool_decide_eq_true_2 by done. cbn [sliceFrom].
      rewrite length_app_s in Hfuel. simpl in Hfuel.
      destruct (IH x'' ((field +:+ p) +:+ String QUOTE "") l'' rest sep tail)
        as [HC HL]; [lia | by apply (isLine_tail QUOTE) | done | done |].
      rewrite (readBack_plain p (String QUOTE x'') Hp' eq_refl).
      rewrite (readBack_cons QUOTE) by done.
      replace (field +:+ p +:+ String QUOTE (readBack x''))
        with (((field +:+ p) +:+ String QUOTE "") +:+ readBack x'')
        by (by rewrite !app_assoc_s).
      done.
Qed.

End ReadBack.

Section Records.
Import GoStrings GoCsv.

Lemma anyByte_false p f c :
  anyByte p f = false -> p c = true -> CountByte c f = 0%nat.
Proof.
  induction f as [|x f IH]; [done|]. simpl.
  intros [Hx Hf]%orb_false_elim Hc.
  destruct (decide (x = c)) as [->|]; [congruence | auto].
Qed.

Lemma anyByte_quote f :
  anyByte isSpecial f = false -> anyByte (fun c => bool_decide (c = QUOTE)) f = false.
Proof.
  induction f as [|x f IH]; [done|]. simpl.
  intros [Hx Hf]%orb_false_elim. rewrite (IH Hf), orb_false_r.
  unfold isSpecial in Hx. by destruct (bool_decide (x = QUOTE)), (bool_decide (x = LF)),
    (bool_decide (x = CR)).
Qed.

Lemma anyByte_lastByte p f c :
  anyByte p f = false -> lastByte f = Some c -> p c = false.
Proof.
  induction f as [|x f IH]; [done|]. simpl.
  intros [Hx Hf]%orb_false_elim. destruct f; [by intros [= <-] | auto].
Qed.

(** A field that [Write] leaves unquoted holds no line feed, carriage
    return, quote or semicolon. *)
Lemma plain_field f : fieldNeedsQuotes f = false -> anyByte isSpecial f = false.
Proof.
  unfold fieldNeedsQuotes.
  destruct (decide (f = "")) as [->|]; [done|].
  destruct (decide (f = "\.")); [done|].
  by destruct (anyByte isSpecial f).
Qed.

Lemma lastByte_snoc s c : lastByte (s +:+ String c "") = Some c.
Proof.
  induction s as [|x s IH]; [done|]. rewrite app_cons_s. simpl. rewrite IH.
  destruct s; done.
Qed.

Lemma length_escape f : (String.length f <= String.length (escape f))%nat.
Proof.
  induction f as [|x f IH]; [done|]. simpl.
  destruct (decide (x = QUOTE)); simpl; lia.
Qed.

Lemma length_writeField f : (String.length f <= String.length (writeField f))%nat.
Proof.
  unfold writeField. destruct (fieldNeedsQuotes f); [|done].
  simpl. rewrite length_app_s. pose proof (length_escape f). lia.
Qed.

Lemma startsWith_escape f : startsWith LF (escape f) = startsWith LF f.
Proof.
  destruct f as [|x f]; [done|]. simpl.
  destruct (decide (x = QUOTE)) as [->|]; done.
Qed.

Lemma crlfFree_escape f : crlfFree f = true -> crlfFree (escape f) = true.
Proof.
  induction f as [|x f IH]; [done|]. simpl.
  intros [H1 H2]%andb_prop. specialize (IH H2).
  destruct (decide (x = QUOTE)) as [->|]; simpl.
  - done.
  - by rewrite startsWith_escape, H1, IH.
Qed.

Lemma crlfFree_writeField f :
  crlfFree f = true ->
  crlfFree (writeField f) = true /\ lastByte (writeField f) <> Some CR.
Proof.
  intros Hf. unfold writeField. destruct (fieldNeedsQuotes f) eqn:Hq.
  - split.
    + change (crlfFree (escape f +:+ String QUOTE "") = true).
      apply crlfFree_app; [by apply crlfFree_escape | done | by right].
    + change (String QUOTE (escape f +:+ String QUOTE ""))
        with (String QUOTE (escape f) +:+ String QUOTE "").
      by rewrite lastByte_snoc.
  - split; [done|]. intros Hlast.
    pose proof (anyByte_lastByte _ _ _ (plain_field _ Hq) Hlast). done.
Qed.

Lemma Write_pair a b more :
  Write [a; b] +:+ more = writeField a +:+ String Comma (writeField b +:+ String LF more).
Proof.
  unfold Write. cbn [writeFields Nat.ltb Nat.leb].
  rewrite !app_nil_s, app_nil_r_s, !app_assoc_s. done.
Qed.

Lemma crlfFree_Write a b more :
  crlfFree a = true -> crlfFree b = true -> crlfFree more = true ->
  crlfFree (Write [a; b] +:+ more) = true.
Proof.
  intros Ha Hb Hmore. rewrite Write_pair.
  destruct (crlfFree_writeField a Ha) as [Ha' _].
  destruct (crlfFree_writeField b Hb) as [Hb' Hlast].
  apply crlfFree_app; [done | | by right].
  change (crlfFree (writeField b +:+ String LF more) = true).
  apply crlfFree_app; [done | done | by left].
Qed.

Lemma crlfFree_dumpFile rows :
  Forall (fun r => crlfFree r.1 = true /\ crlfFree r.2 = true) rows ->
  crlfFree (dumpFile rows) = true.
Proof.
  induction 1 as [|r rows [H1 H2] _ IH]; [done|].
  simpl. by apply crlfFree_Write.
Qed.

(** One field of a written record, read back by the [parseField] loop. *)
Lemma parseFields_field fuel record field line rest sep tail :
  (String.length field < fuel)%nat ->
  isLine line = true ->
  crlfFree (line +:+ rest) = true ->
  line +:+ rest = writeField field +:+ String sep tail ->
  (0 < CountByte LF (String sep tail))%nat ->
  (sep = Comma ->
   exists line' rest',
     parseFields (S fuel) record line rest =
       parseFields fuel (record ++ [field]) line' rest' /\
     line' +:+ rest' = tail /\ isLine line' = true) /\
  (sep = LF ->
   parseFields (S fuel) record line rest = FieldsDone (record ++ [field]) tail).
Proof.
  intros Hfuel Hline Hfree Heq Htail. cbn [parseFields].
  unfold writeField in Heq. destruct (fieldNeedsQuotes field) eqn:Hq.
  - destruct line as [|e l1]; [done|].
    rewrite !app_cons_s, app_assoc_s, app_cons_s, app_nil_s in Heq.
    injection Heq as -> Heq.
    cbn [startsWith negb sliceFrom]. rewrite bool_decide_eq_true_2 by done. cbn [negb].
    rewrite app_cons_s in Hfree. apply crlfFree_tail in Hfree.
    destruct (quotedField_ok fuel field "" l1 rest sep tail Hfuel
                (isLine_tail _ _ Hline ltac:(done)) Hfree Heq Htail) as [HC HL].
    rewrite app_nil_s in HC, HL. split; intros Hsep.
    + destruct (HC Hsep) as (line' & rest' & -> & Hr). eauto.
    + by rewrite (HL Hsep).
  - pose proof (plain_field _ Hq) as Hplain.
    destruct (isLine_prefix field line rest _ Hline
                (anyByte_false _ _ LF Hplain eq_refl) Heq) as (l' & -> & Hl' & Hline').
    destruct l' as [|e l'']; [done|]. rewrite app_cons_s in Hl'.
    injection Hl' as -> Hrest.
    assert (Hstart : sep <> QUOTE -> startsWith QUOTE (field +:+ String sep l'') = false).
    { intros Hsep. destruct field as [|x field]; rewrite ?app_cons_s, ?app_nil_s; simpl.
      - by rewrite bool_decide_eq_false_2.
      - simpl in Hplain. apply orb_false_elim in Hplain as [Hx _].
        unfold isSpecial in Hx. by destruct (bool_decide (x = QUOTE)), (bool_decide (x = LF)),
          (bool_decide (x = CR)). }
    split; intros ->.
    + rewrite Hstart by done. cbn [negb].
      rewrite (IndexByte_app _ _ _ (anyByte_false _ _ Comma Hplain eq_refl)).
      rewrite sliceTo_app, (anyByte_quote _ Hplain), sliceFrom_app_1.
      exists l'', rest. split; [done|]. split; [done|].
      by apply (isLine_tail Comma).
    + rewrite Hstart by done. cbn [negb].
      apply isLine_LF in Hline'; [|done]. injection Hline' as ->.
      rewrite app_nil_s in Hrest. subst rest.
      unfold IndexByte. rewrite Index_none.
      2:{ rewrite CountByte_app, (anyByte_false _ _ Comma Hplain eq_refl). done. }
      rewrite (isLine_lengthNL _ (isLine_app _ (anyByte_false _ _ LF Hplain eq_refl))).
      rewrite length_app_s. simpl.
      replace (String.length field + 1 - 1)%nat with (String.length field) by lia.
      by rewrite sliceTo_app, (anyByte_quote _ Hplain).
Qed.

Lemma CountByte_LF_tail b more :
  (0 < CountByte LF (String Comma (writeField b +:+ String LF more)))%nat.
Proof.
  change (0 < CountByte LF (writeField b +:+ String LF more))%nat.
  rewrite CountByte_app.
  change (CountByte LF (String LF more)) with (S (CountByte LF more)). lia.
Qed.

(** A written record does not start with an empty line. *)
Lemma writeField_not_LF a t : startsWith LF (writeField a +:+ String Comma t) = false.
Proof.
  unfold writeField. destruct (fieldNeedsQuotes a) eqn:Hq; [done|].
  pose proof (anyByte_false _ _ LF (plain_field _ Hq) eq_refl) as Hlf.
  destruct a as [|x a]; [done|]. rewrite app_cons_s. simpl in *.
  destruct (decide (x = LF)); [done|]. by rewrite bool_decide_eq_false_2.
Qed.

(** A written record of two fields, read back by [readRecord]. *)
Lemma readRecord_written fuel a b more :
  crlfFree (Write [a; b] +:+ more) = true ->
  readRecord (S fuel) (Write [a; b] +:+ more) = RecordRead [a; b] more.
Proof.
  intros Hfree. cbn [readRecord].
  destruct (readLine_ok (Write [a; b] +:+ more)) as (line & rest & Hread & Hjoin & Hline).
  { rewrite Write_pair, CountByte_app. pose proof (CountByte_LF_tail b more). lia. }
  { done. }
  rewrite Hread. cbn [negb andb].
  rewrite Write_pair in Hjoin, Hfree. rewrite <- Hjoin in Hfree.
  assert (Hlen : (String.length line + String.length rest =
            String.length (writeField a) +
              S (String.length (writeField b) + S (String.length more)))%nat).
  { rewrite <- length_app_s, Hjoin, length_app_s. simpl. rewrite length_app_s. done. }
  pose proof (length_writeField a). pose proof (length_writeField b).
  assert (Hne : (String.length line =? lengthNL line)%nat = false).
  { rewrite (isLine_lengthNL _ Hline). apply Nat.eqb_neq.
    pose proof (writeField_not_LF a (writeField b +:+ String LF more)) as Hstart.
    rewrite <- Hjoin in Hstart.
    destruct line as [|e [|e' l]]; simpl in *; [done| |lia].
    destruct (decide (e = LF)) as [->|]; [done|done]. }
  rewrite Hne.
  replace (String.length line + String.length rest + 2)%nat
    with (S (S (String.length line + String.length rest))) by lia.
  destruct (parseFields_field (S (String.length line + String.length rest)) [] a
              line rest Comma _ ltac:(lia) Hline Hfree Hjoin (CountByte_LF_tail b more))
    as [HC _].
  destruct (HC eq_refl) as (line' & rest' & -> & Hjoin' & Hline').
  assert (Hfree' : crlfFree (line' +:+ rest') = true).
  { rewrite Hjoin'. rewrite Hjoin in Hfree.
    by apply crlfFree_app_r, crlfFree_tail in Hfree. }
  destruct (parseFields_field (String.length line + String.length rest) ([] ++ [a]) b
              line' rest' LF more ltac:(lia) Hline' Hfree' Hjoin') as [_ HL].
  { simpl. lia. }
  by rewrite (HL eq_refl).
Qed.

End Records.

Section RoundTrip.
Import GoStrings GoCsv.

Lemma length_dumpFile rows : (length rows <= String.length (dumpFile rows))%nat.
Proof.
  induction rows as [|r rows IH]; [done|].
  cbn [dumpFile foldr length]. fold (dumpFile rows).
  rewrite Write_pair, length_app_s. simpl. rewrite length_app_s. simpl. lia.
Qed.

Lemma readAll_written rows : forall fuel fieldsPerRecord records,
  crlfFree (dumpFile rows) = true ->
  fieldsPerRecord = 0%nat \/ fieldsPerRecord = 2%nat ->
  (length rows < fuel)%nat ->
  readAll fuel fieldsPerRecord records (dumpFile rows) =
    RecordsRead (records ++ map (fun r => [r.1; r.2]) rows).
Proof.
  induction rows as [|r rows IH]; intros [|fuel] fpr records Hfree Hfpr Hfuel;
    simpl in Hfuel; try lia.
  - simpl. by rewrite app_nil_r.
  - cbn [readAll dumpFile foldr] in *. fold (dumpFile rows) in *.
    rewrite Nat.add_1_r, (readRecord_written _ _ _ _ Hfree).
    rewrite Write_pair in Hfree.
    apply crlfFree_app_r, crlfFree_tail, crlfFree_app_r, crlfFree_tail in Hfree.
    destruct Hfpr as [-> | ->]; cbn [Nat.ltb Nat.leb Nat.eqb length negb andb];
      rewrite (IH fuel 2%nat) by (done || auto || lia);
      by rewrite <- app_assoc.
Qed.

End RoundTrip.




(** ** Whole runs *)

(** When no request gets through, the probe hands [(0, 0)] to [export],
    which divides by the page size. *)
Example export_without_network :
  exists st, export deafWorld 3 "1" start = Some (Panicked DivideByZero st) /\
             fetches (trace st) = [SetPageSizeUrl "1"].
Proof. eexists. split; reflexivity. Qed.

(** A harvest of one page: the probe, the page, the pause after it. *)
Example export_one_page :
  let w := {| site := fun k _ => if (k <? 1)%nat then Document (pagingDoc "1—2 из 2")
                                 else Document listingDoc;
              graphql := fun _ _ => PostError |} in
  exists st, export w 3 "1" start = Some (Returned tt st) /\
             fetches (trace st) = [SetPageSizeUrl "1"; SetPageSizeUrl "1"] /\
             sleeps (trace st) = [5; 5] /\
             size (movies st) = 2%nat.
Proof. eexists. split; [reflexivity|]. repeat split; vm_compute; reflexivity. Qed.

(** A replay of the file that a harvest wrote. *)
Example importMovies_of_dump :
  exists st,
    importMovies deafWorld (dumpFile [("535341", "1+1 (2011)"); ("326", "x;y")]) start =
      Some (Returned tt st) /\
    posts (trace st) = [535341; 326] /\
    reports (trace st) = [("1+1 (2011)", false); ("x;y", false)].
Proof. eexists. split; [vm_compute; reflexivity|]. split; reflexivity. Qed.

(** * Further properties of the code *)

(** ** What the extractors touch *)

Section Footprints.

Lemma withMovies_id st : withMovies (movies st) st = st.
Proof. by destruct st. Qed.

Lemma merge_app store a b : merge store (a ++ b) = merge (merge store a) b.
Proof. unfold merge. by rewrite foldl_app. Qed.

Lemma withMovies_merge store st records more :
  withMovies (merge (movies (withMovies (merge store records) st)) more)
             (withMovies (merge store records) st) =
  withMovies (merge store (records ++ more)) st.
Proof. unfold withMovies; simpl. by rewrite merge_app. Qed.

Lemma processMovies_loop_footprint cs : forall k st,
  exists records,
    finalState (processMovies_loop cs k st) =
      withMovies (merge (movies st) records) st.
Proof.
  induction cs as [|c cs IH]; intros k st.
  - exists []. simpl. by rewrite withMovies_id.
  - cbn [processMovies_loop].
    destruct (isClassName c "item" || isClassName c "item even"); [|apply IH].
    unfold bind. pose proof (processMovie_cases c st) as Hc.
    destruct (recordOf c) as [[id name]|].
    + rewrite Hc.
      destruct (IH (wrap (k + 1)) (withMovies (<[id:=name]> (movies st)) st))
        as (records & ->).
      exists ((id, name) :: records). reflexivity.
    + destruct Hc as [-> | [e ->]]; [apply IH|].
      exists []. simpl. by rewrite withMovies_id.
Qed.

Lemma findMovies_footprint : forall n st,
  exists records,
    finalState (findMovies n st) = withMovies (merge (movies st) records) st.
Proof.
  induction n as [ty data attr children IH] using Node_forall_ind.
  intros st. cbn [findMovies].
  destruct (isElement _ _ && isClassName _ _).
  - apply processMovies_loop_footprint.
  - revert st. induction IH as [|c cs Hc _ IHcs]; intros st.
    + exists []. simpl. by rewrite withMovies_id.
    + unfold bind at 1. destruct (Hc st) as (records & Hst).
      destruct (findMovies c st) as [r st1|e st1]; simpl in Hst; subst st1.
      * destruct (r =? 0).
        -- destruct (IHcs (withMovies (merge (movies st) records) st))
             as (more & ->).
           exists (records ++ more). apply withMovies_merge.
        -- by exists records.
      * by exists records.
Qed.

Lemma inspectPaging_footprint pages st :
  exists k,
    finalState (inspectPaging pages st) =
      {| movies := movies st;
         trace := trace st ++ replicate k (EvPrint MsgErrorParsingHTML);
         requests := requests st |}.
Proof.
  assert (H0 : st = {| movies := movies st; trace := trace st ++ replicate 0 (EvPrint MsgErrorParsingHTML);
                       requests := requests st |}).
  { simpl. rewrite app_nil_r. by destruct st. }
  unfold inspectPaging, bind, liftR, say, emit, ret.
  destruct (at_ _ 0) as [p0|]; [|by exists 0%nat].
  destruct (at_ _ 0) as [r0|]; [|by exists 0%nat].
  destruct (GoStrconv.Atoi r0); [|by exists 1%nat|by exists 1%nat].
  destruct (at_ _ 1) as [r1|]; [|by exists 0%nat].
  destruct (GoStrconv.Atoi r1); [|by exists 1%nat|by exists 1%nat].
  destruct (at_ _ 1) as [t|]; [|by exists 0%nat].
  destruct (GoStrconv.Atoi t); [by exists 0%nat|by exists 1%nat|by exists 1%nat].
Qed.

Lemma findPagingHeader_footprint : forall n st,
  exists k,
    finalState (findPagingHeader n st) =
      {| movies := movies st;
         trace := trace st ++ replicate k (EvPrint MsgErrorParsingHTML);
         requests := requests st |}.
Proof.
  assert (H0 : forall st, st = {| movies := movies st;
                 trace := trace st ++ replicate 0 (EvPrint MsgErrorParsingHTML);
                 requests := requests st |}).
  { intros st. simpl. rewrite app_nil_r. by destruct st. }
  induction n as [ty data attr children IH] using Node_forall_ind.
  intros st. cbn [findPagingHeader].
  destruct (isElement _ _ && isClassName _ _).
  - destruct children as [|firstChild ?]; [by exists 0%nat|].
    apply inspectPaging_footprint.
  - revert st. induction IH as [|c cs Hc _ IHcs]; intros st.
    + by exists 0%nat.
    + unfold bind at 1. destruct (Hc st) as (k & Hst).
      destruct (findPagingHeader c st) as [r st1|e st1]; simpl in Hst; subst st1.
      * destruct (fst r =? 0); [|by exists k].
        match goal with |- context [_ cs ?s] => destruct (IHcs s) as (k' & ->) end.
        exists (k + k')%nat. simpl. by rewrite replicate_add, app_assoc.
      * by exists k.
Qed.

End Footprints.

Lemma dom_merge (store : gmap string string) records :
  dom store ⊆ dom (merge store records).
Proof.
  revert store. induction records as [|[id name] rs IH]; intros store; [done|].
  unfold merge in *. simpl. etrans; [|apply IH]. rewrite dom_insert. set_solver.
Qed.

Lemma size_merge (store : gmap string string) records :
  (size (merge store records) <= size store + length records)%nat.
Proof.
  revert store. induction records as [|[id name] rs IH]; intros store; simpl; [lia|].
  unfold merge in *. simpl. etrans; [apply IH|].
  destruct (store !! id) eqn:E.
  - rewrite map_size_insert_Some by eauto. lia.
  - rewrite map_size_insert_None by done. lia.
Qed.

(** X1. Whether it returns or panics, [findMovies] prints nothing, sleeps
    nothing and sends nothing, and every id that was in the store before
    the call is still in it after. *)
Theorem findMovies_keeps_ids (n : Node) (st : State) :
  trace (finalState (findMovies n st)) = trace st /\
  requests (finalState (findMovies n st)) = requests st /\
  dom (movies st) ⊆ dom (movies (finalState (findMovies n st))).
Proof.
  destruct (findMovies_footprint n st) as (records & ->).
  repeat split. apply dom_merge.
Qed.

(** X2. Whether it returns or panics, [findPagingHeader] leaves the store
    alone, sends nothing and sleeps nothing; all it adds to the output is
    the message for a segment that is not a number, once per block it
    gave up on. *)
Theorem findPagingHeader_reads_only (n : Node) (st : State) :
  movies (finalState (findPagingHeader n st)) = movies st /\
  requests (finalState (findPagingHeader n st)) = requests st /\
  sleeps (trace (finalState (findPagingHeader n st))) = sleeps (trace st) /\
  exists k,
    trace (finalState (findPagingHeader n st)) =
      trace st ++ replicate k (EvPrint MsgErrorParsingHTML).
Proof.
  destruct (findPagingHeader_footprint n st) as (k & ->). simpl.
  split; [done|]. split; [done|]. split; [|by exists k].
  unfold sleeps. rewrite omap_app.
  induction k as [|k IH]; [apply app_nil_r | exact IH].
Qed.

Section NoBlock.

Lemma anyNode_false p ty data attr children :
  anyNode p (mkNode ty data attr children) = false ->
  p (mkNode ty data attr children) = false /\
  Forall (fun c => anyNode p c = false) children.
Proof.
  cbn [anyNode]. intros [Hp Hcs]%orb_false_elim. split; [done|]. clear Hp.
  induction children as [|c cs IH]; constructor.
  - by apply orb_false_elim in Hcs as [? _].
  - apply IH. by apply orb_false_elim in Hcs as [_ ?].
Qed.

Lemma findPagingHeader_no_block : forall n st,
  anyNode isPagingBlock n = false -> findPagingHeader n st = Returned (0, 0) st.
Proof.
  induction n as [ty data attr children IH] using Node_forall_ind.
  intros st [Hp Hcs]%anyNode_false. cbn [findPagingHeader].
  unfold isPagingBlock in Hp. rewrite Hp.
  induction IH as [|c cs Hc _ IHcs]; [done|].
  apply Forall_cons in Hcs as [Hc' Hcs].
  unfold bind at 1. rewrite (Hc st Hc'). simpl. by apply IHcs.
Qed.

Lemma findMovies_no_block : forall n st,
  anyNode isListingBlock n = false -> findMovies n st = Returned 0 st.
Proof.
  induction n as [ty data attr children IH] using Node_forall_ind.
  intros st [Hp Hcs]%anyNode_false. cbn [findMovies].
  unfold isListingBlock in Hp. rewrite Hp.
  induction IH as [|c cs Hc _ IHcs]; [done|].
  apply Forall_cons in Hcs as [Hc' Hcs].
  unfold bind at 1. rewrite (Hc st Hc'). simpl. by apply IHcs.
Qed.

End NoBlock.

(** X3. On a document that has no [div] with the class [pagesFromTo]
    anywhere, [findPagingHeader] returns [(0, 0)]; on one that has no
    [div] with the class [profileFilmsList], [findMovies] returns [0]; in
    both cases the state is untouched. *)
Theorem extractors_without_block (doc : Node) (st : State) :
  (anyNode isPagingBlock doc = false ->
   findPagingHeader doc st = Returned (0, 0) st) /\
  (anyNode isListingBlock doc = false ->
   findMovies doc st = Returned 0 st).
Proof.
  split; [apply findPagingHeader_no_block | apply findMovies_no_block].
Qed.

Lemma extractors_without_block_witness :
  findPagingHeader emptyDoc start = Returned (0, 0) start /\
  findMovies emptyDoc start = Returned 0 start.
Proof.
  destruct (extractors_without_block emptyDoc start) as [Hp Hl].
  split; [apply Hp | apply Hl]; reflexivity.
Defined.

Section Listing.

Lemma wrap_range z : GoStrconv.minInt <= wrap z <= GoStrconv.maxInt.
Proof.
  unfold wrap, GoStrconv.minInt, GoStrconv.maxInt.
  pose proof (Z.mod_pos_bound (z + 2 ^ 63) (2 ^ 64) ltac:(lia)). lia.
Qed.

Lemma processMovies_loop_count cs : forall k st k' st1,
  GoStrconv.minInt <= k <= GoStrconv.maxInt ->
  processMovies_loop cs k st = Returned k' st1 ->
  k' = wrap (k + Z.of_nat (length (listing cs))).
Proof.
  induction cs as [|c cs IH]; intros k st k' st1 Hk Hrun.
  - simpl in *. injection Hrun as <- _. rewrite Z.add_0_r. by rewrite wrap_small.
  - cbn [processMovies_loop listing omap list_omap] in *. fold (listing cs).
    destruct (isClassName c "item" || isClassName c "item even"); [|eauto].
    unfold bind in Hrun. pose proof (processMovie_cases c st) as Hc.
    destruct (recordOf c) as [[id name]|].
    + rewrite Hc in Hrun. rewrite (IH _ _ _ _ (wrap_range _) Hrun).
      rewrite wrap_wrap_add. f_equal. simpl length. lia.
    + destruct Hc as [Hc | [e Hc]]; rewrite Hc in Hrun; [eauto | done].
Qed.

End Listing.

(** X4. When [processMovies] returns, the store is the old store with
    the records of the accepted children merged in, in document order, and
    nothing else of the state has changed; the count returned is the
    number of those records (as an [int]), and the store has grown by at
    most that many entries, by fewer when ids repeat. *)
Theorem processMovies_counts_and_merges (n : Node) (st st' : State) (count : Z) :
  processMovies n st = Returned count st' ->
  st' = withMovies (merge (movies st) (listing (Children n))) st /\
  count = wrap (Z.of_nat (length (listing (Children n)))) /\
  (size (movies st') <= size (movies st) + length (listing (Children n)))%nat.
Proof.
  unfold processMovies. intros Hrun.
  pose proof (processMovies_loop_merge _ _ _ _ _ Hrun st) as Hst.
  rewrite Hrun in Hst. injection Hst as ->.
  split; [done|]. split.
  - eapply (processMovies_loop_count _ 0 st); [|exact Hrun].
    unfold GoStrconv.minInt, GoStrconv.maxInt. lia.
  - simpl. apply size_merge.
Qed.

Lemma processMovies_counts_and_merges_witness :
  exists st',
    st' = withMovies (merge (movies start) (listing (Children repeatedBlock))) start /\
    2 = wrap (Z.of_nat (length (listing (Children repeatedBlock)))) /\
    (size (movies st') <= size (movies start) + length (listing (Children repeatedBlock)))%nat.
Proof.
  eexists. apply (processMovies_counts_and_merges repeatedBlock start _ 2).
  reflexivity.
Defined.

(** X5. [processMovie] returns [false] without touching the state; when
    it returns [true] it has stored exactly one record, the one under the
    id it extracted, and changed nothing else; when it panics, on the
    index of [extractId] or on the missing text of the anchor, the state
    is as it was. *)
Theorem processMovie_footprint (n : Node) (st : State) :
  match processMovie n st with
  | Returned false st' => st' = st
  | Returned true st' =>
      exists id name,
        recordOf n = Some (id, name) /\
        st' = withMovies (<[id := name]> (movies st)) st /\
        movies st' !! id = Some name
  | Panicked e st' =>
      st' = st /\ (e = IndexOutOfRange \/ e = NilDereference)
  end.
Proof.
  pose proof (processMovie_cases n st) as Hc.
  destruct (recordOf n) as [[id name]|] eqn:Er.
  - rewrite Hc. exists id, name. split; [done|]. split; [done|].
    simpl. apply lookup_insert_eq.
  - destruct Hc as [-> | [e He]]; [done|].
    rewrite He. split; [done|].
    rewrite processMovie_anchor in He.
    destruct (anchorOf n) as [[a href]|]; [|done].
    unfold storeMovie, bind, liftR, extractId, at_ in He.
    destruct (_ !! 2%nat).
    + destruct (Children a); [|done]. injection He as <-. by right.
    + injection He as <-. by left.
Qed.

(** ** The retry loops, seen from their callers *)

Section Attempts.
Variables (w : World) (url : string).

Lemma fetches_app a b : fetches (a ++ b) = fetches a ++ fetches b.
Proof. apply omap_app. Qed.

Lemma sleeps_app a b : sleeps (a ++ b) = sleeps a ++ sleeps b.
Proof. apply omap_app. Qed.

(** One round of [parsePage] on a page that was fetched and parsed, with
    everything it leaves in the state. *)
Lemma parsePage_attempt doc found i st :
  site w (requests st) url = Document doc ->
  listingYields doc found ->
  exists records,
    forall fuel,
      parsePage_loop w (S fuel) url i st =
        let st' := {| movies := merge (movies st) records;
                      trace := trace st ++ parsePageAttempt url i found;
                      requests := S (requests st) |} in
        if found =? 0 then parsePage_loop w fuel url (wrap (i + 1)) st'
        else Some (Returned found st').
Proof.
  intros Hsite Hdoc.
  set (st1 := {| movies := movies st;
                 trace := trace (record (EvPrint (if i =? 0 then MsgFetchPage url
                                            else MsgTryFetchPage (wrap (i + 1)) url))
                            (record (EvPrint MsgNewline) st)) ++ [EvGet url];
                 requests := S (requests st) |}).
  destruct (Hdoc st1) as (st2 & Hrun & _).
  destruct (findMovies_footprint doc st1) as (records & Hst2).
  rewrite Hrun in Hst2. simpl in Hst2. subst st2.
  exists records. intros fuel. cbn [parsePage_loop].
  unfold bind, say, emit, get, sleep, ret. cbn [requests movies record].
  rewrite Hsite. fold st1. rewrite Hrun.
  unfold withMovies, st1, parsePageAttempt, emit, record. cbn [movies trace requests].
  rewrite <- !app_assoc. reflexivity.
Qed.

End Attempts.

(** X6. What [parsePage] returns tells its caller how the last request
    ended: a zero means that the last request failed in transport or in
    parsing, a non-zero count is what the last document yields; in either
    case at least one request was sent. *)
Theorem parsePage_zero_is_error (w : World) (fuel : nat) (url : string)
    (st st' : State) (found : Z) :
  parsePage w fuel url st = Some (Returned found st') ->
  (requests st < requests st')%nat /\
  if found =? 0
  then site w (requests st' - 1) url = FetchError \/
       site w (requests st' - 1) url = ParseError
  else exists doc,
         site w (requests st' - 1) url = Document doc /\ listingYields doc found.
Proof.
  unfold parsePage. generalize 0 at 1 as i. revert st.
  induction fuel as [|fuel IH]; intros st i Hrun; [done|].
  cbn [parsePage_loop] in Hrun.
  unfold bind, say, emit, get, sleep, ret in Hrun. cbn [requests movies record] in Hrun.
  destruct (site w (requests st) url) as [| |doc] eqn:Hsite.
  - injection Hrun as <- <-. cbn [requests record].
    rewrite Nat.sub_1_r. simpl. split; [lia | by left].
  - injection Hrun as <- <-. cbn [requests record].
    rewrite Nat.sub_1_r. simpl. split; [lia | by right].
  - match type of Hrun with context [findMovies doc ?s] => set (st1 := s) in * end.
    destruct (findMovies_footprint doc st1) as (records & Hfoot).
    destruct (findMovies doc st1) as [v st2|] eqn:Hfind; [|done].
    simpl in Hfoot. subst st2.
    unfold emit in Hrun. cbn beta iota in Hrun.
    destruct (v =? 0) eqn:Hv.
    + apply IH in Hrun as [Hreq Hlast]. cbn [requests record withMovies] in Hreq.
      unfold st1 in Hreq. cbn [requests] in Hreq. split; [lia | done].
    + injection Hrun as <- <-. cbn [requests record withMovies]. unfold st1.
      cbn [requests]. rewrite Nat.sub_1_r. cbn [Nat.pred]. rewrite Hv.
      split; [lia|]. exists doc. split; [done|].
      by apply (findMovies_pure doc st1 v _ Hfind).
Qed.

Lemma parsePage_zero_is_error_witness :
  exists st',
    (requests start < requests st')%nat /\
    exists doc,
      site slowWorld (requests st' - 1) "u" = Document doc /\ listingYields doc 2.
Proof.
  eexists. apply (parsePage_zero_is_error slowWorld 3 "u" start _ 2). reflexivity.
Defined.

(** X7. The same for the probe: [parseFirstPage] returns a zero total
    only after a request that failed in transport or in parsing, and then
    the page size it returns is zero as well; a non-zero total comes with
    the page size of the last document. *)
Theorem parseFirstPage_zero_is_error (w : World) (fuel : nat) (url : string)
    (st st' : State) (totalMovies pageSize : Z) :
  parseFirstPage w fuel url st = Some (Returned (totalMovies, pageSize) st') ->
  (requests st < requests st')%nat /\
  if totalMovies =? 0
  then pageSize = 0 /\
       (site w (requests st' - 1) url = FetchError \/
        site w (requests st' - 1) url = ParseError)
  else exists doc,
         site w (requests st' - 1) url = Document doc /\
         pagingYields doc (totalMovies, pageSize).
Proof.
  unfold parseFirstPage. generalize 0 at 1 as i. revert st.
  induction fuel as [|fuel IH]; intros st i Hrun; [done|].
  cbn [parseFirstPage_loop] in Hrun.
  unfold bind, say, emit, get, ret in Hrun. cbn [requests movies record] in Hrun.
  destruct (site w (requests st) url) as [| |doc] eqn:Hsite.
  - injection Hrun as <- <- <-. cbn [requests record].
    rewrite Nat.sub_1_r. simpl. split; [lia | by split; [|left]].
  - injection Hrun as <- <- <-. cbn [requests record].
    rewrite Nat.sub_1_r. simpl. split; [lia | by split; [|right]].
  - match type of Hrun with context [findPagingHeader doc ?s] => set (st1 := s) in * end.
    destruct (findPagingHeader_footprint doc st1) as (k & Hfoot).
    destruct (findPagingHeader doc st1) as [[t p] st2|] eqn:Hfind; [|done].
    simpl in Hfoot.
    destruct (t =? 0) eqn:Ht.
    + apply IH in Hrun as [Hreq Hlast]. rewrite Hfoot in Hreq.
      unfold st1 in Hreq. cbn [requests] in Hreq. split; [lia | done].
    + injection Hrun as <- <- <-. rewrite Hfoot. unfold st1.
      cbn [requests]. rewrite Nat.sub_1_r. cbn [Nat.pred]. rewrite Ht.
      split; [lia|]. exists doc. split; [done|].
      by apply (findPagingHeader_pure doc st1 (t, p) _ Hfind).
Qed.

Lemma parseFirstPage_zero_is_error_witness :
  exists st',
    (requests start < requests st')%nat /\
    exists doc,
      site slowProbeWorld (requests st' - 1) "u" = Document doc /\
      pagingYields doc (237, 200).
Proof.
  eexists.
  apply (parseFirstPage_zero_is_error slowProbeWorld 3 "u" start _ 237 200).
  reflexivity.
Defined.

(** ** [export] *)

(** X8. When the first request of the probe fails, in transport or in
    parsing, [export] takes the [(0, 0)] of the probe and panics on the
    division by the page size: one request was sent, nothing was slept,
    nothing was stored, and no file is written. *)
Theorem export_probe_error_panics (w : World) (fuel : nat) (userId : string)
    (st : State) :
  site w (requests st) (SetPageSizeUrl userId) = FetchError \/
  site w (requests st) (SetPageSizeUrl userId) = ParseError ->
  exists st',
    export w (S fuel) userId st = Some (Panicked DivideByZero st') /\
    requests st' = S (requests st) /\
    sleeps (trace st') = sleeps (trace st) /\
    movies st' = movies st.
Proof.
  intros [Hsite | Hsite]; unfold export, parseFirstPage; cbn [parseFirstPage_loop];
    unfold bind, say, emit, get, ret; cbn [requests movies record];
    rewrite Hsite; cbn [pageCountOf quo bindR Z.eqb];
    eexists; (split; [reflexivity|]); cbn [requests movies trace record];
    (split; [done|]); (split; [|done]);
    by rewrite !sleeps_app, !app_nil_r.
Qed.

Lemma export_probe_error_panics_witness :
  exists st',
    export deafWorld 1 "1" start = Some (Panicked DivideByZero st') /\
    requests st' = 1%nat /\
    sleeps (trace st') = [] /\
    movies st' = ∅.
Proof.
  apply (export_probe_error_panics deafWorld 0 "1" start). by left.
Defined.

(** X9. A paging block whose range is empty, [last = first - 1], gives a
    page size of zero with a total that is not: the probe accepts it and
    [export] panics on the division, after the one request. *)
Theorem export_zero_page_size_panics (w : World) (fuel : nat) (userId : string)
    (st : State) (doc : Node) (totalMovies : Z) :
  site w (requests st) (SetPageSizeUrl userId) = Document doc ->
  pagingYields doc (totalMovies, 0) ->
  totalMovies <> 0 ->
  exists st',
    export w (S fuel) userId st = Some (Panicked DivideByZero st') /\
    requests st' = S (requests st).
Proof.
  intros Hsite Hdoc Ht.
  destruct (parseFirstPage_round w _ doc totalMovies 0 0 st Hsite Hdoc)
    as (st' & Hreq & _ & Hstep).
  exists st'. split; [|done].
  unfold export, parseFirstPage. rewrite Hstep.
  destruct (Z.eqb_spec totalMovies 0); [done|]. reflexivity.
Qed.

Lemma export_zero_page_size_panics_witness :
  exists st',
    export {| site := fun _ _ => Document (pagingDoc "5—4 из 10");
              graphql := fun _ _ => PostError |} 1 "1" start =
      Some (Panicked DivideByZero st') /\
    requests st' = 1%nat.
Proof.
  apply (export_zero_page_size_panics _ 0 "1" start (pagingDoc "5—4 из 10") 10).
  - reflexivity.
  - by apply (findPagingHeader_pure _ start (10, 0) start).
  - lia.
Defined.

Lemma pageCountOf_range totalMovies pageSize pageCount :
  pageCountOf totalMovies pageSize = Ok pageCount ->
  GoStrconv.minInt <= pageCount <= GoStrconv.maxInt.
Proof.
  unfold pageCountOf, quo, rem, bindR.
  destruct (pageSize =? 0); [done|].
  destruct (Z.rem totalMovies pageSize =? 0); intros [= <-]; apply wrap_range.
Qed.

(** X10. When the page count that [export] computes is zero or less (a
    range that runs backwards, a negative total), the page loop is not
    entered: [export] returns after the one request of the probe, without
    a sleep, and what it goes on to dump is the store as it was. *)
Theorem export_no_pages (w : World) (fuel : nat) (userId : string)
    (st : State) (doc : Node) (totalMovies pageSize pageCount : Z) :
  site w (requests st) (SetPageSizeUrl userId) = Document doc ->
  pagingYields doc (totalMovies, pageSize) ->
  totalMovies <> 0 ->
  pageCountOf totalMovies pageSize = Ok pageCount ->
  pageCount <= 0 ->
  exists st',
    export w (S fuel) userId st = Some (Returned tt st') /\
    requests st' = S (requests st) /\
    sleeps (trace st') = sleeps (trace st) /\
    movies st' = movies st.
Proof.
  intros Hsite Hdoc Ht Hpc Hle.
  set (st1 := {| movies := movies st;
                 trace := trace (record (EvPrint (MsgFetchFirstPage (SetPageSizeUrl userId)))
                            st) ++ [EvGet (SetPageSizeUrl userId)];
                 requests := S (requests st) |}).
  destruct (Hdoc st1) as (st2 & Hrun & Hreq & Hsl).
  destruct (findPagingHeader_footprint doc st1) as (k & Hfoot).
  rewrite Hrun in Hfoot. simpl in Hfoot.
  pose proof (pageCountOf_range _ _ _ Hpc) as Hrange.
  unfold export, parseFirstPage. cbn [parseFirstPage_loop].
  unfold bind, say, emit, get, ret. cbn [requests movies record Z.eqb].
  rewrite Hsite. fold st1. rewrite Hrun.
  destruct (Z.eqb_spec totalMovies 0); [done|]. rewrite Hpc.
  cbn [export_pages].
  rewrite wrap_small by (unfold GoStrconv.minInt, GoStrconv.maxInt in *; lia).
  destruct (Z.ltb_spec 1 (pageCount + 1)); [lia|].
  eexists. split; [reflexivity|]. cbn [requests movies trace record].
  split; [done|]. split.
  - rewrite !sleeps_app, !app_nil_r, Hsl. unfold st1. cbn [trace record].
    by rewrite !sleeps_app, !app_nil_r.
  - by rewrite Hfoot.
Qed.

Lemma export_no_pages_witness :
  exists st',
    export {| site := fun _ _ => Document (pagingDoc "50—1 из 237");
              graphql := fun _ _ => PostError |} 1 "1" start =
      Some (Returned tt st') /\
    requests st' = 1%nat /\
    sleeps (trace st') = [] /\
    movies st' = ∅.
Proof.
  apply (export_no_pages _ 0 "1" start (pagingDoc "50—1 из 237") 237 (-48) (-3)).
  - reflexivity.
  - by apply (findPagingHeader_pure _ start (237, -48) start).
  - lia.
  - reflexivity.
  - lia.
Defined.

(** X11. A profile whose paging block keeps showing a total of zero is
    never harvested: however many rounds it is given, [export] is still
    in the probe and has not returned; and the probe does not pause
    between its attempts: [n] rounds send [n] requests and sleep
    nothing. *)
Theorem export_never_ends_on_zero_total (w : World) (userId : string) (st : State) :
  (forall k, exists doc pageSize,
     site w k (SetPageSizeUrl userId) = Document doc /\
     pagingYields doc (0, pageSize)) ->
  (forall fuel, export w fuel userId st = None) /\
  (forall n, exists i st',
     (forall fuel,
        parseFirstPage w (n + fuel) (SetPageSizeUrl userId) st =
          parseFirstPage_loop w fuel (SetPageSizeUrl userId) i st') /\
     requests st' = (requests st + n)%nat /\
     sleeps (trace st') = sleeps (trace st)).
Proof.
  intros Hsite.
  assert (Hempty : forall n,
            emptyAttempts w (SetPageSizeUrl userId) st n
              (fun doc => exists pageSize, pagingYields doc (0, pageSize))).
  { intros n k _. destruct (Hsite (requests st + k)%nat) as (doc & p & Hd & Hy).
    exists doc. eauto. }
  split.
  - intros fuel.
    destruct (parseFirstPage_empties w _ fuel 0 st (Hempty fuel))
      as (i & st' & _ & _ & Hrun).
    unfold export, parseFirstPage.
    specialize (Hrun 0%nat). rewrite Nat.add_0_r in Hrun. by rewrite Hrun.
  - intros n.
    destruct (parseFirstPage_empties w _ n 0 st (Hempty n))
      as (i & st' & Hreq & Hsl & Hrun).
    by exists i, st'.
Qed.

Lemma export_never_ends_on_zero_total_witness :
  export zeroTotalWorld 1000 "1" start = None.
Proof.
  apply (export_never_ends_on_zero_total zeroTotalWorld "1" start).
  intros k. exists (pagingDoc "0—0 из 0"), 0. split; [reflexivity|].
  by apply (findPagingHeader_pure _ start (0, 0) start).
Defined.

Section Pages.
Variables (w : World) (userId : string) (pageCount : Z) (from : nat).
Hypothesis prompt :
  forall k u, (from <= k)%nat ->
    exists doc found,
      site w k u = Document doc /\ listingYields doc found /\ found <> 0.
Hypothesis pageCount_int : 0 <= pageCount < GoStrconv.maxInt.

Lemma export_pages_run m : forall i total fuel st,
  1 <= i -> i + Z.of_nat m = pageCount + 1 -> (m < fuel)%nat ->
  (from <= requests st)%nat ->
  exists total' st',
    export_pages w fuel userId i pageCount total st = Some (Returned total' st') /\
    fetches (trace st') = fetches (trace st) ++ map (pageUrlOf userId) (seqZ i (Z.of_nat m)) /\
    sleeps (trace st') = sleeps (trace st) ++ replicate (2 * m) 5 /\
    requests st' = (requests st + m)%nat.
Proof.
  assert (Hw : wrap (pageCount + 1) = pageCount + 1)
    by (apply wrap_small; unfold GoStrconv.minInt, GoStrconv.maxInt in *; lia).
  induction m as [|m IH]; intros i total [|fuel] st Hi Him Hfuel Hfrom; try lia.
  - cbn [export_pages]. rewrite Hw.
    destruct (Z.ltb_spec i (pageCount + 1)); [lia|].
    exists total, st. rewrite seqZ_nil by lia. simpl.
    by rewrite !app_nil_r, Nat.add_0_r.
  - cbn [export_pages]. rewrite Hw.
    destruct (Z.ltb_spec i (pageCount + 1)); [|lia].
    fold (pageUrlOf userId i).
    destruct (prompt (requests st) (pageUrlOf userId i) Hfrom)
      as (doc & found & Hsite & Hdoc & Hfound).
    destruct (parsePage_attempt w _ doc found 0 st Hsite Hdoc) as (records & Hstep).
    destruct fuel as [|fuel]; [lia|].
    unfold parsePage. rewrite Hstep. cbn zeta.
    destruct (Z.eqb_spec found 0); [done|].
    assert (Hwi : wrap (i + 1) = i + 1)
      by (apply wrap_small; unfold GoStrconv.minInt, GoStrconv.maxInt in *; lia).
    rewrite Hwi.
    match goal with |- context [export_pages w (S fuel) userId (i + 1) pageCount ?t ?s] =>
      destruct (IH (i + 1) t (S fuel) s) as (total' & st' & Hrun & Hf & Hs & Hr);
        [lia | lia | lia | cbn [requests record]; lia |]
    end.
    exists total', st'. split; [exact Hrun|].
    cbn [trace record requests] in Hf, Hs, Hr.
    rewrite !fetches_app, !sleeps_app in *.
    split; [|split].
    + rewrite Hf. rewrite (seqZ_cons i) by lia.
      replace (Z.succ i) with (i + 1) by lia.
      replace (Z.pred (Z.of_nat (S m))) with (Z.of_nat m) by lia.
      simpl. by rewrite <- !app_assoc.
    + rewrite Hs. replace (2 * S m)%nat with (S (S (2 * m))) by lia.
      simpl. by rewrite <- !app_assoc.
    + rewrite Hr. lia.
Qed.

End Pages.

(** X12. When the site answers every request at once with a page that
    lists something, the page loop of [export] fetches each page from 1
    to [pageCount] once and in order, the first page under the
    page-size URL and the others under their page URL, and sleeps twice
    five seconds per page. *)
Theorem export_pages_visits_each_page (w : World) (userId : string)
    (pageCount : Z) (fuel : nat) (st : State) :
  (forall k u, exists doc found,
     site w k u = Document doc /\ listingYields doc found /\ found <> 0) ->
  0 <= pageCount < GoStrconv.maxInt ->
  (Z.to_nat pageCount < fuel)%nat ->
  exists total st',
    export_pages w fuel userId 1 pageCount 0 st = Some (Returned total st') /\
    fetches (trace st') =
      fetches (trace st) ++ map (pageUrlOf userId) (seqZ 1 pageCount) /\
    sleeps (trace st') =
      sleeps (trace st) ++ replicate (2 * Z.to_nat pageCount) 5 /\
    requests st' = (requests st + Z.to_nat pageCount)%nat.
Proof.
  intros Hprompt Hpc Hfuel.
  destruct (export_pages_run w userId pageCount 0 (fun k u _ => Hprompt k u) Hpc
              (Z.to_nat pageCount) 1 0 fuel st) as (total & st' & H);
    [lia | lia | lia | lia |].
  exists total, st'. by rewrite Z2Nat.id in H by lia.
Qed.

Lemma export_pages_visits_each_page_witness :
  exists total st',
    export_pages {| site := fun _ _ => Document listingDoc;
                    graphql := fun _ _ => PostError |} 4 "1" 1 3 0 start =
      Some (Returned total st') /\
    fetches (trace st') =
      fetches (trace start) ++ map (pageUrlOf "1") (seqZ 1 3) /\
    sleeps (trace st') = sleeps (trace start) ++ replicate (2 * Z.to_nat 3) 5 /\
    requests st' = (requests start + Z.to_nat 3)%nat.
Proof.
  apply (export_pages_visits_each_page _ "1" 3 4 start).
  - intros k u. exists listingDoc, 2. split; [reflexivity|].
    split; [apply listingDoc_listing | lia].
  - unfold GoStrconv.maxInt. lia.
  - simpl. lia.
Defined.

(** ** Class names *)

Section ClassNames.
Import GoStrings.

Lemma HasPrefix_inv p : forall s, HasPrefix s p = true -> exists t, s = p +:+ t.
Proof.
  induction p as [|x p IH]; intros s H; [by exists s|].
  destruct s as [|c s]; [done|]. simpl in H.
  destruct (decide (c = x)) as [->|]; [|done].
  destruct (IH s H) as (t & ->). by exists t.
Qed.

Lemma Contains_inv sub : forall s,
  Contains s sub = true -> exists pre post, s = pre +:+ sub +:+ post.
Proof.
  unfold Contains. induction s as [|c s IH]; simpl.
  - destruct (HasPrefix "" sub) eqn:E; [|done]. intros _.
    destruct (HasPrefix_inv _ _ E) as (t & Ht). by exists "", t.
  - destruct (HasPrefix (String c s) sub) eqn:E.
    + intros _. destruct (HasPrefix_inv _ _ E) as (t & Ht). by exists "", t.
    + destruct (Index s sub); [|done]. intros _.
      destruct (IH eq_refl) as (pre & post & ->).
      by exists (String c pre), post.
Qed.

Lemma Contains_app pre sub post : Contains (pre +:+ sub +:+ post) sub = true.
Proof.
  unfold Contains. induction pre as [|c pre IH]; rewrite ?app_cons_s, ?app_nil_s.
  - by rewrite Index_here.
  - simpl. destruct (HasPrefix _ sub); [done|].
    by destruct (Index (pre +:+ sub +:+ post) sub).
Qed.

End ClassNames.

(** X13. [isClassName] is a substring test: it holds exactly when some
    attribute named [class] has a value with the name somewhere inside
    it, so a class such as [pagesFromTo2] or [items] matches too; a node
    that matches a name matches every part of that name, and the second
    test of [processMovies], for ["item even"], never accepts a child
    that the first, for ["item"], does not. *)
Theorem isClassName_is_substring_test (n : Node) (className : string) :
  (isClassName n className = true <->
   exists a pre post,
     a ∈ Attr n /\ Key a = "class" /\ Val a = pre +:+ className +:+ post) /\
  (forall pre post,
     isClassName n (pre +:+ className +:+ post) = true ->
     isClassName n className = true) /\
  (isClassName n "item" || isClassName n "item even") = isClassName n "item".
Proof.
  assert (Hiff : forall name,
    isClassName n name = true <->
    exists a pre post, a ∈ Attr n /\ Key a = "class" /\ Val a = pre +:+ name +:+ post).
  { intros name. unfold isClassName. rewrite existsb_exists. split.
    - intros (a & Hin & [Hk Hc]%andb_prop).
      apply bool_decide_eq_true in Hk.
      destruct (Contains_inv _ _ Hc) as (pre & post & Hv).
      exists a, pre, post. by rewrite list_elem_of_In.
    - intros (a & pre & post & Hin & Hk & Hv). exists a.
      split; [by apply list_elem_of_In|].
      rewrite Hv, Contains_app, andb_true_r. by apply bool_decide_eq_true. }
  assert (Hpart : forall pre post,
    isClassName n (pre +:+ className +:+ post) = true -> isClassName n className = true).
  { intros pre post (a & p & q & Hin & Hk & Hv)%Hiff. apply Hiff.
    exists a, (p +:+ pre), (post +:+ q). split; [done|]. split; [done|].
    by rewrite Hv, !app_assoc_s. }
  split; [apply Hiff|]. split; [exact Hpart|].
  destruct (isClassName n "item") eqn:E1; [done|].
  destruct (isClassName n "item even") eqn:E2; [|done].
  assert (Hitem : forall name, name = "item" -> isClassName n name = true).
  { intros name ->. apply Hiff.
    apply Hiff in E2 as (a & p & q & Hin & Hk & Hv).
    exists a, p, (" even" +:+ q). split; [done|]. split; [done|].
    rewrite Hv. change "item even" with ("item" +:+ " even").
    by rewrite !app_assoc_s. }
  rewrite (Hitem "item" eq_refl) in E1. done.
Qed.

(** ** Replay *)



(** X15. [setMovieWatched] sends one request and no more, never panics,
    never sleeps and leaves the store alone; it answers [true] exactly
    when the status that came back is ["SUCCESS"], and [false] for every
    other status, for a body that is not the expected JSON and for a
    request that failed. *)
Theorem setMovieWatched_contract (w : World) (movieId : Z) (st : State) :
  exists ok st',
    setMovieWatched w movieId st = Returned ok st' /\
    (ok = true <-> graphql w (requests st) movieId = Status "SUCCESS") /\
    posts (trace st') = posts (trace st) ++ [movieId] /\
    requests st' = S (requests st) /\
    sleeps (trace st') = sleeps (trace st) /\
    movies st' = movies st.
Proof.
  unfold setMovieWatched, bind, post, say, emit, ret, record.
  destruct (graphql w (requests st) movieId) as [| |status] eqn:E;
    do 2 eexists; (split; [reflexivity|]); cbn [trace requests movies];
    unfold posts, sleeps; rewrite ?omap_app; simpl; rewrite ?app_nil_r.
  - by repeat split.
  - by repeat split.
  - repeat split; try done.
    + by intros ->%bool_decide_eq_true.
    + intros [= ->]. by apply bool_decide_eq_true.
Qed.

(** ** The file between a harvest and a replay *)

Section DumpAndReplay.
Import GoStrings GoCsv.

Lemma CountByte_crlfFree s : CountByte CR s = 0%nat -> crlfFree s = true.
Proof.
  induction s as [|c s IH]; [done|]. simpl.
  destruct (decide (c = CR)) as [->|Hc]; [done|]. intros H.
  by rewrite bool_decide_eq_false_2, (IH H).
Qed.

Lemma Atoi_crlfFree s n : GoStrconv.Atoi s = GoStrconv.Num n -> crlfFree s = true.
Proof. intros H. apply CountByte_crlfFree. by apply (Atoi_free _ _ _ H). Qed.

Lemma readMoviesCsv_dumpFile rows :
  Forall (fun r => crlfFree r.1 = true /\ crlfFree r.2 = true) rows ->
  readMoviesCsv (dumpFile rows) = Some (map (fun r => [r.1; r.2]) rows).
Proof.
  intros Hrows. unfold readMoviesCsv, ReadAll.
  rewrite readAll_written; [done | by apply crlfFree_dumpFile | by left |].
  pose proof (length_dumpFile rows). lia.
Qed.

Lemma rows_of_ids rows ids :
  Forall2 (fun r n => GoStrconv.Atoi r.1 = GoStrconv.Num n) rows ids ->
  Forall2 rowOf (map (fun r => [r.1; r.2]) rows) (zip ids rows.*2) /\
  (zip ids rows.*2).*1 = ids /\ (zip ids rows.*2).*2 = rows.*2.
Proof.
  induction 1 as [|[id name] n rows ids Hid _ (IH1 & IH2 & IH3)]; [done|].
  split; [|split].
  - constructor; [|done]. by exists id, [].
  - cbn. by f_equal.
  - cbn. by f_equal.
Qed.

End DumpAndReplay.

(** X16. A replay of the file that a harvest wrote, when the ids read as
    [int]s and no name holds a [\r\n]: the file is read in full, and
    every row is sent once and reported, in the order of the file,
    whatever the endpoint answers. *)
Theorem replay_of_dump (w : World) (rows : list (string * string)) (ids : list Z)
    (st : State) :
  Forall2 (fun r n => GoStrconv.Atoi r.1 = GoStrconv.Num n) rows ids ->
  Forall (fun r => crlfFree r.2 = true) rows ->
  exists st',
    importMovies w (dumpFile rows) st = Some (Returned tt st') /\
    posts (trace st') = posts (trace st) ++ ids /\
    (reports (trace st')).*1 = (reports (trace st)).*1 ++ rows.*2 /\
    sleeps (trace st') = sleeps (trace st) ++ replicate (length rows) 1.
Proof.
  intros Hids Hnames.
  assert (Hclean : Forall (fun r => crlfFree r.1 = true /\ crlfFree r.2 = true) rows).
  { clear -Hids Hnames. induction Hids as [|r n rows ids Hid _ IH]; [done|].
    apply Forall_cons in Hnames as [Hn Hnames].
    constructor; [|by apply IH]. split; [by apply (Atoi_crlfFree _ n) | done]. }
  destruct (rows_of_ids rows ids Hids) as (Hrows & H1 & H2).
  destruct (importMovies_rows w _ _ Hrows st) as (st' & Hrun & Hp & Hr & Hs & _).
  exists st'. unfold importMovies. rewrite (readMoviesCsv_dumpFile _ Hclean).
  specialize (Hrun []). rewrite app_nil_r in Hrun. simpl in Hrun.
  rewrite Hrun. rewrite H1 in Hp. rewrite H2 in Hr. rewrite length_map in Hs.
  done.
Qed.

Lemma replay_of_dump_witness :
  exists st',
    importMovies deafWorld
      (dumpFile [("535341", "1+1 (2011)"); ("326", "x;y")]) start =
      Some (Returned tt st') /\
    posts (trace st') = posts (trace start) ++ [535341; 326] /\
    (reports (trace st')).*1 =
      (reports (trace start)).*1 ++ [("535341", "1+1 (2011)"); ("326", "x;y")].*2 /\
    sleeps (trace st') =
      sleeps (trace start) ++
      replicate (length [("535341", "1+1 (2011)"); ("326", "x;y")]) 1.
Proof.
  apply (replay_of_dump deafWorld _ [535341; 326] start).
  - repeat constructor.
  - repeat constructor.
Defined.

(** X17. Two sequences of records without [\r\n] in their fields are
    never dumped to the same file unless they are the same sequence: the
    file determines the records and their order. *)
Theorem dumpFile_injective (rows rows' : list (string * string)) :
  Forall (fun r => crlfFree r.1 = true /\ crlfFree r.2 = true) rows ->
  Forall (fun r => crlfFree r.1 = true /\ crlfFree r.2 = true) rows' ->
  dumpFile rows = dumpFile rows' ->
  rows = rows'.
Proof.
  intros H H' Heq.
  pose proof (readMoviesCsv_dumpFile _ H) as Hr.
  rewrite Heq, (readMoviesCsv_dumpFile _ H') in Hr.
  injection Hr as Hr. clear -Hr. symmetry in Hr.
  revert rows' Hr. induction rows as [|[a b] rows IH]; intros [|[a' b'] rows'] Hr;
    try done.
  simpl in Hr. injection Hr as -> -> Hr. f_equal. by apply IH.
Qed.

Lemma dumpFile_injective_witness :
  [("326", "x;y")] = [("326", "x;y")].
Proof.
  apply (dumpFile_injective [("326", "x;y")] [("326", "x;y")]).
  - repeat constructor.
  - repeat constructor.
  - reflexivity.
Defined.

(** ** The paging block, case by case *)

Lemma Atoi_range s n :
  GoStrconv.Atoi s = GoStrconv.Num n -> GoStrconv.minInt <= n <= GoStrconv.maxInt.
Proof.
  unfold GoStrconv.Atoi. destruct s as [|c s]; [done|].
  destruct (if _ || _ then s else String c s); [done|].
  destruct (GoStrconv.digits 0 _) as [v|]; [|done].
  destruct (_ && _) eqn:E; [|done]. intros [= <-].
  apply andb_prop in E as [?%Z.leb_le ?%Z.leb_le]. done.
Qed.

(** X18. Whatever the text of the paging block, the inspection ends in
    one of three ways: a panic on the index of a missing segment, with
    the state as it was; the pair [(0, 0)] after one message, for a
    segment that is not a number; or a total and a page size that are
    both [int]s, with the state as it was. *)
Theorem inspectPaging_outcomes (pages : string) (st : State) :
  inspectPaging pages st = Panicked IndexOutOfRange st \/
  inspectPaging pages st =
    Returned (0, 0) (record (EvPrint MsgErrorParsingHTML) st) \/
  exists totalMovies pageSize,
    inspectPaging pages st = Returned (totalMovies, pageSize) st /\
    GoStrconv.minInt <= totalMovies <= GoStrconv.maxInt /\
    GoStrconv.minInt <= pageSize <= GoStrconv.maxInt.
Proof.
  unfold inspectPaging, bind, liftR, say, emit, ret, at_.
  destruct (_ !! 0%nat) as [p0|]; [|by left].
  destruct (_ !! 0%nat) as [r0|]; [|by left].
  destruct (GoStrconv.Atoi r0); [|by right; left|by right; left].
  destruct (_ !! 1%nat) as [r1|]; [|by left].
  destruct (GoStrconv.Atoi r1); [|by right; left|by right; left].
  destruct (_ !! 1%nat) as [t|]; [|by left].
  destruct (GoStrconv.Atoi t) as [total| |] eqn:Et; [|by right; left|by right; left].
  right; right. eexists _, _. split; [reflexivity|].
  split; [by apply (Atoi_range t) | apply wrap_range].
Qed.

(** ** A harvest from a site that answers at once *)

Section PromptSite.

Lemma fetches_prints k m : fetches (replicate k (EvPrint m)) = [].
Proof. induction k; [done | exact IHk]. Qed.

Lemma sleeps_prints k m : sleeps (replicate k (EvPrint m)) = [].
Proof. induction k; [done | exact IHk]. Qed.

End PromptSite.

(** X19. A whole harvest from a site that answers every request at
    once: the probe reads a total that is not zero, [export] computes a
    page count [pageCount] of at least zero, every page lists something
    at the first attempt.  Then [export] returns after [1 + pageCount]
    requests: the probe, then the pages 1 to [pageCount] in order, each
    once; it has slept twice five seconds per page. *)
Theorem export_from_prompt_site (w : World) (userId : string) (st : State)
    (header : Node) (totalMovies pageSize pageCount : Z) (fuel : nat) :
  site w (requests st) (SetPageSizeUrl userId) = Document header ->
  pagingYields header (totalMovies, pageSize) ->
  totalMovies <> 0 ->
  pageCountOf totalMovies pageSize = Ok pageCount ->
  0 <= pageCount < GoStrconv.maxInt ->
  (forall k u, (requests st < k)%nat ->
     exists doc found,
       site w k u = Document doc /\ listingYields doc found /\ found <> 0) ->
  (Z.to_nat pageCount < fuel)%nat ->
  exists st',
    export w fuel userId st = Some (Returned tt st') /\
    requests st' = (requests st + 1 + Z.to_nat pageCount)%nat /\
    fetches (trace st') =
      fetches (trace st) ++
      SetPageSizeUrl userId :: map (pageUrlOf userId) (seqZ 1 pageCount) /\
    sleeps (trace st') = sleeps (trace st) ++ replicate (2 * Z.to_nat pageCount) 5.
Proof.
  intros Hsite Hdoc Ht Hpc Hrange Hprompt Hfuel.
  destruct fuel as [|fuel]; [lia|].
  set (st1 := {| movies := movies st;
                 trace := trace (record (EvPrint (MsgFetchFirstPage (SetPageSizeUrl userId)))
                            st) ++ [EvGet (SetPageSizeUrl userId)];
                 requests := S (requests st) |}).
  destruct (Hdoc st1) as (st2 & Hrun & _).
  destruct (findPagingHeader_footprint header st1) as (k & Hfoot).
  rewrite Hrun in Hfoot. simpl in Hfoot.
  unfold export, parseFirstPage. cbn [parseFirstPage_loop].
  unfold bind, say, emit, get, ret. cbn [requests movies record Z.eqb].
  rewrite Hsite. fold st1. rewrite Hrun.
  destruct (Z.eqb_spec totalMovies 0); [done|]. rewrite Hpc.
  match goal with |- context [export_pages w (S fuel) userId 1 pageCount 0 ?s] =>
    destruct (export_pages_run w userId pageCount (S (requests st))
                (fun k u Hk => Hprompt k u Hk) Hrange (Z.to_nat pageCount)
                1 0 (S fuel) s) as (total & st3 & Hpages & Hf & Hs & Hr);
      [lia | lia | lia
       | cbn [requests record]; rewrite Hfoot; unfold st1; cbn [requests]; lia |]
  end.
  rewrite Hpages. eexists. split; [reflexivity|].
  cbn [requests trace] in *. rewrite Hfoot in Hf, Hs, Hr. unfold st1 in Hf, Hs, Hr.
  cbn [requests trace record] in Hf, Hs, Hr.
  rewrite Z2Nat.id in Hf by lia.
  rewrite !fetches_app, ?fetches_prints in Hf.
  rewrite !sleeps_app, ?sleeps_prints in Hs.
  change (fetches [EvGet (SetPageSizeUrl userId)]) with [SetPageSizeUrl userId] in Hf.
  change (fetches [EvPrint ?m]) with (@nil string) in Hf.
  change (sleeps [EvGet ?u]) with (@nil Z) in Hs.
  change (sleeps [EvPrint ?m]) with (@nil Z) in Hs.
  rewrite !app_nil_r in Hf, Hs.
  cbn [requests trace record].
  split; [lia|]. rewrite !fetches_app, !sleeps_app.
  change (fetches [EvPrint ?m]) with (@nil string).
  change (sleeps [EvPrint ?m]) with (@nil Z).
  rewrite !app_nil_r. split.
  - rewrite Hf. by rewrite <- !app_assoc.
  - rewrite Hs. by rewrite ?app_nil_r.
Qed.

Lemma export_from_prompt_site_witness :
  exists st',
    export promptWorld 4 "1" start = Some (Returned tt st') /\
    requests st' = (requests start + 1 + Z.to_nat 3)%nat /\
    fetches (trace st') =
      fetches (trace start) ++ SetPageSizeUrl "1" :: map (pageUrlOf "1") (seqZ 1 3) /\
    sleeps (trace st') = sleeps (trace start) ++ replicate (2 * Z.to_nat 3) 5.
Proof.
  apply (export_from_prompt_site promptWorld "1" start (pagingDoc "1—2 из 6") 6 2 3 4).
  - reflexivity.
  - by apply (findPagingHeader_pure _ start (6, 2) start).
  - lia.
  - reflexivity.
  - unfold GoStrconv.maxInt. lia.
  - intros k u Hk. exists listingDoc, 2. split.
    + simpl in *. destruct k; [lia | reflexivity].
    + split; [apply listingDoc_listing | lia].
  - simpl. lia.
Defined.

(** ** What [readMoviesCsv] hands to the replay *)

Section Uniform.
Import GoCsv.

Lemma parseFields_grows fuel : forall record line rest r rest',
  parseFields fuel record line rest = FieldsDone r rest' ->
  (length record < length r)%nat.
Proof.
  induction fuel as [|fuel IH]; intros record line rest r rest' H; [done|].
  cbn [parseFields] in H. destruct (negb (startsWith QUOTE line)).
  - destruct (IndexByte line Comma) as [i|].
    + destruct (anyByte _ _); [done|]. apply IH in H.
      rewrite length_app in H. simpl in H. lia.
    + destruct (anyByte _ _); [done|]. injection H as <- _.
      rewrite length_app. simpl. lia.
  - destruct (quotedField _ _ _ _) as [field line' rest''|field rest''| |]; try done.
    + apply IH in H. rewrite length_app in H. simpl in H. lia.
    + injection H as <- _. rewrite length_app. simpl. lia.
Qed.

Lemma readRecord_nonempty fuel : forall input record rest,
  readRecord fuel input = RecordRead record rest -> (0 < length record)%nat.
Proof.
  induction fuel as [|fuel IH]; intros input record rest H; [done|].
  cbn [readRecord] in H. destruct (readLine input) as [[line eof] rest0].
  destruct (negb eof && _); [eauto|]. destruct eof; [done|].
  destruct (parseFields _ _ _ _) as [r rest'| |] eqn:E; try done.
  injection H as <- _. apply parseFields_grows in E. simpl in E. lia.
Qed.

Lemma readAll_uniform fuel : forall fieldsPerRecord records input data,
  readAll fuel fieldsPerRecord records input = RecordsRead data ->
  (fieldsPerRecord = 0%nat -> records = []) ->
  Forall (fun r => length r = fieldsPerRecord) records ->
  exists n, (0 < n)%nat /\ Forall (fun r => length r = n) data.
Proof.
  induction fuel as [|fuel IH]; intros fpr records input data H H0 Hall; [done|].
  cbn [readAll] in H.
  destruct (readRecord _ input) as [record rest| | |] eqn:E; try done.
  - apply readRecord_nonempty in E.
    destruct (Nat.ltb_spec 0 fpr) as [Hpos|Hzero]; cbn [andb] in H.
    + destruct (Nat.eqb_spec (length record) fpr) as [Hlen|]; [|done].
      cbn [negb] in H. apply IH in H; [done | lia |].
      apply Forall_app. split; [done|]. by constructor.
    + assert (fpr = 0%nat) as -> by lia. rewrite (H0 eq_refl) in H.
      apply IH in H; [done | lia |]. by constructor.
  - injection H as <-. destruct fpr as [|fpr].
    + rewrite (H0 eq_refl). exists 1%nat. split; [lia | constructor].
    + exists (S fpr). split; [lia | done].
Qed.

End Uniform.

Section ReplayFromFile.
Variable w : World.

Lemma importMovies_loop_returns data : forall st,
  Forall (fun row => (2 <= length row)%nat) data ->
  exists st', importMovies_loop w data st = Returned tt st'.
Proof.
  induction data as [|row data IH]; intros st Hall; [by exists st|].
  apply Forall_cons in Hall as [Hrow Hall].
  destruct row as [|id [|name more]]; simpl in Hrow; try lia.
  cbn [importMovies_loop]. unfold bind at 1 2. simpl.
  destruct (GoStrconv.Atoi id) as [n| |] eqn:Hid; [|by eexists|by eexists].
  destruct (setMovieWatched_once w n st) as (ok & st1 & Hset & _).
  unfold bind at 1. rewrite Hset. unfold bind, say, sleep, emit. by apply IH.
Qed.

End ReplayFromFile.

Lemma readMoviesCsv_rows_are_uniform_aux (content : string) (data : list (list string)) :
  readMoviesCsv content = Some data ->
  exists n, (0 < n)%nat /\ Forall (fun row => length row = n) data.
Proof.
  unfold readMoviesCsv, GoCsv.ReadAll.
  destruct (GoCsv.readAll _ _ _ _) as [d| |] eqn:E; try done.
  intros [= <-]. by apply (readAll_uniform _ _ _ _ _ E).
Qed.

(** X20. The rows that [readMoviesCsv] returns all have the same number
    of fields, the number of the first row, and that number is at least
    one: a file with a row of another length is not read at all. *)
Theorem readMoviesCsv_rows_are_uniform (content : string) (data : list (list string)) :
  readMoviesCsv content = Some data ->
  exists n, (0 < n)%nat /\ Forall (fun row => length row = n) data.
Proof.
  exact (readMoviesCsv_rows_are_uniform_aux content data).
Qed.

Lemma readMoviesCsv_rows_are_uniform_witness :
  exists n, (0 < n)%nat /\
    Forall (fun row => length row = n) [["535341"; "1+1 (2011)"]; ["326"; "x;y"]].
Proof.
  apply (readMoviesCsv_rows_are_uniform
           (dumpFile [("535341", "1+1 (2011)"); ("326", "x;y")])).
  vm_compute. reflexivity.
Defined.

(** X21. A replay that reads its rows from a file can only panic on the
    first row, and before anything was sent: the panic is the index out
    of range of a one-column file, whose rows all lack the name; a file
    with two columns or more is replayed without a panic to its end or
    to the first id that is not a number. *)
Theorem importMovies_panics_only_at_first_row (w : World) (content : string)
    (st st' : State) (e : RuntimeError) :
  importMovies w content st = Some (Panicked e st') ->
  e = IndexOutOfRange /\ st' = st /\
  exists data, readMoviesCsv content = Some data /\
               Forall (fun row => length row = 1%nat) data.
Proof.
  unfold importMovies.
  destruct (readMoviesCsv content) as [data|] eqn:Hread; [|done].
  destruct (readMoviesCsv_rows_are_uniform_aux content data Hread) as (n & Hn & Hall).
  destruct (decide (2 <= n)%nat) as [Hbig|Hsmall].
  - destruct (importMovies_loop_returns w data st) as (st1 & Hrun).
    + eapply Forall_impl; [exact Hall|]. simpl. intros row ->. exact Hbig.
    + rewrite Hrun. done.
  - assert (n = 1%nat) as -> by lia.
    destruct data as [|row data]; [done|].
    pose proof Hall as Hall'. apply Forall_cons in Hall' as [Hrow _].
    destruct row as [|id [|name more]]; try done.
    cbn [importMovies_loop]. unfold bind, liftR. simpl.
    intros [= <- <-]. repeat split; try done. by exists ([id] :: data).
Qed.

Lemma importMovies_panics_only_at_first_row_witness :
  IndexOutOfRange = IndexOutOfRange /\ start = start /\
  exists data, readMoviesCsv (String.append "535341" (String GoCsv.LF EmptyString)) = Some data /\
               Forall (fun row => length row = 1%nat) data.
Proof.
  apply (importMovies_panics_only_at_first_row deafWorld
           (String.append "535341" (String GoCsv.LF EmptyString)) start start IndexOutOfRange).
  vm_compute. reflexivity.
Defined.
